(** * WebPie dispatch core: a shallow embedding of [webpie/WPApp.py]

    The development follows the layout of the source file:
    - [PyBase]: Python values, exceptions and string helpers;
    - [ResponseModel]: [makeResponse] (response coercion);
    - [PermissionGate]: the [webmethod] decorator;
    - [Query]: [WPApp.parseQuery];
    - [Handlers]: [WPHandler.step_down], [WPHandler._destroy] and
      [WPApp.find_web_method] over a store of handler objects;
    - [Coordinator]: [WPApp.convertPath], the path splitting of
      [WPApp.wsgi_call] and the initialisation part of [WPApp.__call__].

    The interpreter is Python 3 ([PY3] is true and [PY2] is false). *)

From Stdlib Require Import String Ascii List ZArith Lia Bool.
From stdpp Require Import base option list.
Import ListNotations.

Local Open Scope string_scope.
Local Open Scope list_scope.
Set Warnings "-register-all".

(* ===================================================================== *)
(** ** Python values and exceptions                                       *)
(* ===================================================================== *)

Module PyBase.

(** A byte string ([bytes]). *)
Definition bytes := list Byte.byte.

(** [str.encode("utf-8")]: a [str] is represented by the bytes of its
    UTF-8 encoding, so that encoding reads the representation off. *)
Definition encode_utf8 (s : string) : bytes := list_byte_of_string s.

(** The body source of a response. *)
Inductive Body_ (V : Type) : Type :=
| BodyEmpty                                  (* [app_iter=None] *)
| BodyChunks (chunks : list bytes)           (* a list of byte chunks *)
| BodyJson (d : list (string * V))           (* [[json.dumps(d).encode("utf-8")]] *)
| BodyLazy (src : list V)                    (* [(to_bytes(x) for x in src)], not yet run *)
| BodyText (t : string).                     (* [response.text = t] *)
Arguments BodyEmpty {V}.
Arguments BodyChunks {V} chunks.
Arguments BodyJson {V} d.
Arguments BodyLazy {V} src.
Arguments BodyText {V} t.

(** Modelled from the spec: the canonical response.  The class [Response]
    comes from the package [webpie.webob], which is not part of the source
    file; the spec gives it the four components status, content-type,
    headers and body. *)
Record Response_ (V : Type) : Type := mkResponse {
  status : Z;
  content_type : string;
  headers : list (string * V);
  body : Body_ V
}.
Arguments mkResponse {V} _ _ _ _.
Arguments status {V} _.
Arguments content_type {V} _.
Arguments headers {V} _.
Arguments body {V} _.

(** The Python values a web method can return.  A [bool] is an [int] in
    Python and is read as [PInt]; a [Response] object is not iterable. *)
Inductive pyval : Type :=
| PNone
| PInt (n : Z)
| PStr (s : string)
| PBytes (b : bytes)
| PDict (d : list (string * pyval))
| PList (l : list pyval)
| PTuple (l : list pyval)
| PIter (l : list pyval)        (* any other [Iterable]: generator, set, ... *)
| PResponse (r : Response_ pyval)
| PObject (cls : string).       (* an object of any other class; not iterable *)

Definition Response := Response_ pyval.
Definition Body := Body_ pyval.
Abbreviation dict := (list (string * pyval)).

(** Exceptions raised by the modelled code. *)
Inductive exn : Type :=
| ValueError (offending : pyval)   (* "Can not convert to a Response: " + repr(resp) *)
| TypeError                        (* json.dumps: object is not JSON serializable *)
| AttributeError                   (* x.encode on an object without [encode] *)
| NameError (name : string)        (* name ... is not defined *)
| KeyError (key : string).         (* d[key] on a dictionary without [key] *)

(** The outcome of a call: a value or a raised exception. *)
Inductive result (A : Type) : Type :=
| Ok (a : A)
| Raise (e : exn).
Arguments Ok {A} a.
Arguments Raise {A} e.

Definition bind {A B} (r : result A) (k : A -> result B) : result B :=
  match r with
  | Ok a => k a
  | Raise e => Raise e
  end.

(** [[f(x) for x in l]], stopping at the first exception. *)
Fixpoint list_comprehension {A B} (f : A -> result B) (l : list A) : result (list B) :=
  match l with
  | [] => Ok []
  | x :: xs => bind (f x) (fun y => bind (list_comprehension f xs) (fun ys => Ok (y :: ys)))
  end.

(** [d.get(k)] on an insertion-ordered dictionary. *)
Fixpoint dict_get {V} (k : string) (d : list (string * V)) : option V :=
  match d with
  | [] => None
  | (k', v) :: d' => if String.eqb k k' then Some v else dict_get k d'
  end.

End PyBase.
Export PyBase.

(* ===================================================================== *)
(** ** Response Model: [makeResponse]                                     *)
(* ===================================================================== *)

Module ResponseModel.

(** [to_bytes] (the PY3 definition):
    [s if isinstance(s, bytes) else s.encode("utf-8")]. *)
Definition to_bytes (s : pyval) : result bytes :=
  match s with
  | PBytes b => Ok b
  | PStr t => Ok (encode_utf8 t)
  | _ => Raise AttributeError
  end.

(** Whether [json.dumps] accepts a value (it raises [TypeError] on the
    others).  [json] is Python's standard library; its output text is kept
    symbolic in [BodyJson]. *)
Fixpoint json_serializable (v : pyval) : bool :=
  match v with
  | PNone | PInt _ | PStr _ => true
  | PList l | PTuple l => forallb json_serializable l
  | PDict d => forallb (fun kv => match kv with (_, x) => json_serializable x end) d
  | PBytes _ | PIter _ | PResponse _ | PObject _ => false
  end.

(** Modelled from the spec: the defaults of a fresh [Response] (status and
    content-type "default"), with no headers set. *)
Definition default_status : Z := 200.
Definition default_content_type : string := "text/html".

(** Modelled from the spec: [Response(app_iter=..., status=...)]. *)
Definition Response_new (app_iter : option Body) (st : option Z) : Response :=
  {| status := default default_status st;
     content_type := default_content_type;
     headers := [];
     body := default BodyEmpty app_iter |}.

(** The content-type a header mapping implies, when it has one. *)
Definition implied_content_type (h : dict) : option string :=
  match dict_get "Content-Type" h with
  | Some (PStr ct) => Some ct
  | _ => None
  end.

(** Modelled from the spec: [response.headers = h] installs the mapping;
    a content-type it carries becomes the response's content-type. *)
Definition set_headers (h : dict) (r : Response) : Response :=
  {| status := status r;
     content_type := default (content_type r) (implied_content_type h);
     headers := h;
     body := body r |}.

(** Modelled from the spec: [response.content_type = ct]. *)
Definition set_content_type (ct : string) (r : Response) : Response :=
  {| status := status r; content_type := ct; headers := headers r; body := body r |}.

(** Modelled from the spec: [response.text = t]. *)
Definition set_text (t : string) (r : Response) : Response :=
  {| status := status r; content_type := content_type r; headers := headers r;
     body := BodyText t |}.

(** The local variables of [makeResponse]. *)
Record locals := mkLocals {
  l_app_iter : option Body;
  l_text : option string;
  l_content_type : option string;
  l_status : option Z;
  l_headers : option dict
}.

Definition locals_init : locals := mkLocals None None None None None.

(** The first [if] of the loop body (lines 154-173), entered while no body
    is fixed; [None] when no branch of it runs [continue]. *)
Definition body_branch (part : pyval) (st : locals) : option (result locals) :=
  match part with
  | PDict d =>
      Some (if json_serializable (PDict d)
            then Ok (mkLocals (Some (BodyJson d)) (l_text st) (Some "text/json")
                              (l_status st) (l_headers st))
            else Raise TypeError)
  | PBytes b =>
      Some (Ok (mkLocals (Some (BodyChunks [b])) (l_text st) (l_content_type st)
                         (l_status st) (l_headers st)))
  | PStr s =>
      Some (Ok (mkLocals (l_app_iter st) (Some s) (l_content_type st)
                         (l_status st) (l_headers st)))
  | PList l =>
      Some (bind (list_comprehension to_bytes l) (fun chunks =>
            Ok (mkLocals (Some (BodyChunks chunks)) (l_text st) (l_content_type st)
                         (l_status st) (l_headers st))))
  | PTuple l | PIter l =>
      Some (Ok (mkLocals (Some (BodyLazy l)) (l_text st) (l_content_type st)
                         (l_status st) (l_headers st)))
  | PNone | PInt _ | PResponse _ | PObject _ => None
  end.

(** The second [if] of the loop body (lines 175-182). *)
Definition meta_branch (resp : list pyval) (part : pyval) (st : locals) : result locals :=
  match part with
  | PDict d =>
      Ok (mkLocals (l_app_iter st) (l_text st) (l_content_type st) (l_status st) (Some d))
  | PInt n =>
      Ok (mkLocals (l_app_iter st) (l_text st) (l_content_type st) (Some n) (l_headers st))
  | PStr s =>
      Ok (mkLocals (l_app_iter st) (l_text st) (Some s) (l_status st) (l_headers st))
  | _ => Raise (ValueError (PTuple resp))
  end.

(** One iteration of [for part in resp]. *)
Definition loop_body (resp : list pyval) (part : pyval) (st : locals) : result locals :=
  match l_app_iter st, l_text st with
  | None, None =>
      match body_branch part st with
      | Some r => r
      | None => meta_branch resp part st
      end
  | _, _ => meta_branch resp part st
  end.

Fixpoint for_parts (resp : list pyval) (parts : list pyval) (st : locals) : result locals :=
  match parts with
  | [] => Ok st
  | part :: rest => bind (loop_body resp part st) (for_parts resp rest)
  end.

(** Lines 184-192: build the response from the locals. *)
Definition build (st : locals) : Response :=
  let response := Response_new (l_app_iter st) (l_status st) in
  let response :=
    match l_headers st with
    | Some h => set_headers h response
    | None => response
    end in
  let response :=
    match l_content_type st with
    | Some ct => if String.eqb ct "" then response else set_content_type ct response
    | None => response
    end in
  match l_text st with
  | Some t => set_text t response
  | None => response
  end.

(** Lines 149-150: [if not isinstance(resp, tuple): resp = (resp,)]. *)
Definition as_tuple (resp : pyval) : list pyval :=
  match resp with
  | PTuple l => l
  | _ => [resp]
  end.

Definition makeResponse (resp : pyval) : result Response :=
  match resp with
  | PResponse r => Ok r
  | PInt n => Ok (Response_new None (Some n))
  | _ =>
      let resp := as_tuple resp in
      bind (for_parts resp resp locals_init) (fun st => Ok (build st))
  end.

(** Whether the loop has fixed a body ([app_iter] or [text] is set). *)
Definition body_fixed (st : locals) : bool :=
  match l_app_iter st, l_text st with
  | None, None => false
  | _, _ => true
  end.

(** *** The shapes of a returned value *)

Definition as_int (x : pyval) : option Z :=
  match x with PInt n => Some n | _ => None end.

Definition as_dict (x : pyval) : option dict :=
  match x with PDict d => Some d | _ => None end.

Definition as_str (x : pyval) : option string :=
  match x with PStr s => Some s | _ => None end.

Definition is_int (x : pyval) : bool := bool_decide (is_Some (as_int x)).

(** The body-like shapes: a mapping, a text string, a byte string, a list,
    or another iterable (a nested tuple is one). *)
Definition is_body (x : pyval) : bool :=
  match x with
  | PDict _ | PStr _ | PBytes _ | PList _ | PTuple _ | PIter _ => true
  | PNone | PInt _ | PResponse _ | PObject _ => false
  end.

(** A chunk that [to_bytes] converts. *)
Definition is_chunk (x : pyval) : bool :=
  match x with
  | PStr _ | PBytes _ => true
  | _ => false
  end.

(** A body-like value that is converted without a fault: a mapping must be
    JSON-serializable and the items of a list must be strings or byte
    strings.  (The items of another iterable are converted when the body
    is sent, not here.) *)
Definition body_converts (x : pyval) : bool :=
  match x with
  | PDict d => json_serializable (PDict d)
  | PList l => forallb is_chunk l
  | _ => true
  end.

(** The shapes that are read as status, headers or content-type once the
    body is fixed. *)
Definition is_meta (x : pyval) : bool :=
  match x with
  | PDict _ | PInt _ | PStr _ => true
  | _ => false
  end.



(** The last element of a kind in a list, [init] when there is none. *)
Definition pick_last {A} (f : pyval -> option A) (l : list pyval) (init : option A)
    : option A :=
  fold_left (fun acc x => match f x with Some v => Some v | None => acc end) l init.

(** The content-type of the response built from a body [b], the string
    [s] (if any) and the mapping [h] (if any) that follow it. *)
Definition final_content_type (b : pyval) (s : option string) (h : option dict) : string :=
  let base :=
    match h with
    | Some h => default default_content_type (implied_content_type h)
    | None => default_content_type
    end in
  let chosen :=
    match s with
    | Some s => Some s
    | None => match b with PDict _ => Some "text/json" | _ => None end
    end in
  match chosen with
  | Some ct => if String.eqb ct "" then base else ct
  | None => base
  end.

End ResponseModel.

(* ===================================================================== *)
(** ** Permission Gate: the [webmethod] decorator                         *)
(* ===================================================================== *)

Module PermissionGate.

(** What [handler._roles(request, relpath)] returns: one role name or a
    list of role names. *)
Inductive roles_value : Type :=
| RolesStr (s : string)
| RolesList (l : list string).

(** What the wrapper hands back: a [HTTPForbidden] response object built by
    the wrapper itself, or whatever the wrapped method returned. *)
Inductive gate_value (R : Type) : Type :=
| HTTPForbidden (detail : option string)
| Returned (r : R).
Arguments HTTPForbidden {R} detail.
Arguments Returned {R} r.

(** The calls the wrapper makes, in order. *)
Inductive gate_event : Type :=
| CallRoles
| CallMethod.

(** [r in permissions], for a list (or set) of role names. *)
Definition role_in (r : string) (permissions : list string) : bool :=
  existsb (String.eqb r) permissions.

(** The [for r in roles: if r in permissions: break] loop; [true] when it
    leaves through [break], [false] when it runs into its [else]. *)
Fixpoint for_roles (roles permissions : list string) : bool :=
  match roles with
  | [] => false
  | r :: rest => if role_in r permissions then true else for_roles rest permissions
  end.

(** [if isinstance(roles, str): roles = [roles]]. *)
Definition roles_list (roles : roles_value) : list string :=
  match roles with
  | RolesStr s => [s]
  | RolesList l => l
  end.

(** The text ["Not authorized\n"]. *)
Definition not_authorized : string := "Not authorized" ++ String (ascii_of_nat 10) "".

Section Webmethod.
Context {Handler Request Params R : Type}.

(** The handler's role lookup and the wrapped method. *)
Variable _roles : Handler -> Request -> string -> result roles_value.
Variable method : Handler -> Request -> string -> Params -> result R.

(** The wrapped call [method(handler, request, relpath, ...)] and what
    it hands back. *)
Definition call_method (handler : Handler) (request : Request) (relpath : string)
    (params : Params) : result (gate_value R) :=
  bind (method handler request relpath params) (fun r => Ok (Returned r)).

(** [decorated], the function [webmethod(permissions)(method)] returns. *)
Definition decorated (permissions : option (list string))
    (handler : Handler) (request : Request) (relpath : string) (params : Params)
    : list gate_event * result (gate_value R) :=
  match permissions with
  | Some perms =>
      match _roles handler request relpath with
      | Raise _ => ([CallRoles], Ok (HTTPForbidden (Some not_authorized)))
      | Ok roles =>
          let roles := roles_list roles in
          if for_roles roles perms
          then ([CallRoles; CallMethod], call_method handler request relpath params)
          else ([CallRoles], Ok (HTTPForbidden None))
      end
  | None => ([CallMethod], call_method handler request relpath params)
  end.
End Webmethod.

End PermissionGate.

(* ===================================================================== *)
(** ** Strings: the [str] methods the dispatcher uses                     *)
(* ===================================================================== *)

Module PyStr.

(** [s.split(sep)] for a one-character separator. *)
Fixpoint split (sep : ascii) (s : string) : list string :=
  match s with
  | EmptyString => [""]
  | String c s' =>
      if Ascii.eqb c sep then "" :: split sep s'
      else match split sep s' with
           | w :: ws => String c w :: ws
           | [] => [String c ""]
           end
  end.

(** [s.split(sep, 1)]: cut at the first separator only. *)
Fixpoint split1 (sep : ascii) (s : string) : list string :=
  match s with
  | EmptyString => [""]
  | String c s' =>
      if Ascii.eqb c sep then [""; s']
      else match split1 sep s' with
           | w :: ws => String c w :: ws
           | [] => [String c ""]
           end
  end.

(** [s.endswith(c)] for a one-character suffix. *)
Fixpoint endswith (c : ascii) (s : string) : bool :=
  match s with
  | EmptyString => false
  | String a EmptyString => Ascii.eqb a c
  | String _ s' => endswith c s'
  end.

(** [s.startswith(p)]. *)
Definition startswith (p s : string) : bool := String.prefix p s.

(** [s[n:]]. *)
Fixpoint slice_from (n : nat) (s : string) : string :=
  match n, s with
  | O, _ => s
  | S n', String _ s' => slice_from n' s'
  | S _, EmptyString => EmptyString
  end.

(** [sep.join(l)]. *)
Definition join (sep : string) (l : list string) : string := String.concat sep l.

(** [s or d]: the empty string is false. *)
Definition str_or (s d : string) : string := if String.eqb s "" then d else s.

Definition slash : ascii := "/"%char.

(** [if not path.endswith("/"): path += "/"]. *)
Definition ensure_slash (path : string) : string :=
  if endswith slash path then path else path ++ "/".

End PyStr.
Export PyStr.

(* ===================================================================== *)
(** ** Query strings: [WPApp.parseQuery]                                  *)
(* ===================================================================== *)

Module Query.

(** A value of the parsed mapping: [None] or a string, or, for a repeated
    key, a list of such. *)
Inductive qvalue : Type :=
| QOne (v : option string)
| QList (l : list (option string)).

(** [out[k] = v] on an insertion-ordered dictionary: an existing key keeps
    its place, a new key goes last. *)
Fixpoint dict_set {V} (k : string) (v : V) (d : list (string * V)) : list (string * V) :=
  match d with
  | [] => [(k, v)]
  | (k', v') :: d' =>
      if String.eqb k k' then (k', v) :: d' else (k', v') :: dict_set k v d'
  end.

(** One iteration of [for w in (query or "").split("&")]. *)
Definition parse_word (w : string) (out : list (string * qvalue)) : list (string * qvalue) :=
  if String.eqb w "" then out
  else
    let words := split1 "="%char w in
    let k := hd "" words in
    if String.eqb k "" then out
    else
      let v := match words with
               | _ :: v1 :: _ => Some v1
               | _ => None
               end in
      match dict_get k out with
      | Some old =>
          let old := match old with
                     | QList l => l
                     | QOne x => [x]
                     end in
          dict_set k (QList (old ++ [v])) out
      | None => dict_set k (QOne v) out
      end.

Definition parseQuery (query : option string) : list (string * qvalue) :=
  fold_left (fun out w => parse_word w out)
            (split "&"%char (str_or (default "" query) "")) [].

(** The key and value a word of the query stands for; [None] for a word
    that is empty or has an empty key. *)
Definition word_pair (w : string) : option (string * option string) :=
  match split1 "="%char w with
  | k :: rest =>
      if String.eqb k "" then None
      else Some (k, match rest with v :: _ => Some v | [] => None end)
  | [] => None
  end.

(** The value a word gives to key [k], if it is a word for [k]. *)
Definition word_value (k : string) (w : string) : option (option string) :=
  match word_pair w with
  | Some (k', v) => if String.eqb k k' then Some v else None
  | None => None
  end.

Definition word_key (w : string) : option string := option_map fst (word_pair w).

(** The values given to key [k], in the order of the query string. *)
Definition occurrences (k : string) (query : string) : list (option string) :=
  omap (word_value k) (split "&"%char query).

(** The keys of the query string, in order, repetitions included. *)
Definition query_keys (query : string) : list string :=
  omap word_key (split "&"%char query).

(** The value of the mapping for a key with the given occurrences. *)
Definition collected (vs : list (option string)) : option qvalue :=
  match vs with
  | [] => None
  | [v] => Some (QOne v)
  | _ => Some (QList vs)
  end.

(** A list of keys without the later repetitions. *)
Fixpoint first_seen (seen : list string) (ks : list string) : list string :=
  match ks with
  | [] => []
  | k :: rest =>
      if existsb (String.eqb k) seen then first_seen seen rest
      else k :: first_seen (k :: seen) rest
  end.

(** *** Query strings written from key-value pairs

    The definitions below do not come from the source: they say what a
    query string of pairs is, so that what [parseQuery] returns can be
    compared with the pairs the string was written from. *)

(** [c in s], for a character. *)
Fixpoint has_char (c : ascii) (s : string) : bool :=
  match s with
  | EmptyString => false
  | String a s' => Ascii.eqb a c || has_char c s'
  end.

(** The word that stands for a key and its value in a query string:
    [key=value], or the key alone for a key without a value. *)
Definition pair_word (p : string * option string) : string :=
  match snd p with
  | Some v => (fst p ++ String "="%char v)%string
  | None => fst p
  end.

(** The query string of a list of pairs: their words with ["&"] between
    them. *)
Definition query_of (pairs : list (string * option string)) : string :=
  join "&" (map pair_word pairs).

(** The pairs a query string can carry: the key is not empty and has no
    ["="] and no ["&"] in it, the value no ["&"]. *)
Definition plain_pair (p : string * option string) : Prop :=
  fst p <> "" /\
  has_char "="%char (fst p) = false /\
  has_char "&"%char (fst p) = false /\
  match snd p with
  | Some v => has_char "&"%char v = false
  | None => True
  end.

(** The values the pairs give to key [k], in the order of the pairs. *)
Definition values_of (k : string) (pairs : list (string * option string))
    : list (option string) :=
  omap (fun p => if String.eqb k (fst p) then Some (snd p) else None) pairs.

End Query.

(* ===================================================================== *)
(** ** Handler nodes: [WPHandler]                                         *)
(* ===================================================================== *)

Module Handlers.

(** The docstring that tags a web method. *)
Definition _WebMethodSignature : string := "__WebPie:webmethod__".

(** The values an attribute of a handler holds.  Handlers live in a store
    and are referred to by their index, so that two attributes (of one
    handler or of two) can hold the same handler object. *)
Inductive pyobj : Type :=
| ONone
| OHandler (id : nat)                           (* a [WPHandler] instance *)
| OCallable (name : string) (doc : option string)  (* a function, a bound method or
                                                   another callable; its [__doc__] *)
| OData (repr : string).                        (* anything else *)

(** A [WPHandler] instance.  [cls_attrs] are the attributes its class adds
    to or overrides in [WPHandler]; [cls_callable] says whether the class
    defines [__call__] (as [WPStaticHandler] and [LambdaHandler] do);
    [inst_attrs] are the entries of [__dict__] beyond those that
    [WPHandler.__init__] creates; [session] is the entry
    [self.Request.environ["webpie.session"]] of the request the handler
    was made for, [None] when the environment has no such key. *)
Record WPHandler : Type := mkHandler {
  _Strict : bool;
  _MethodNames : option (list string);
  cls_callable : bool;
  cls_attrs : list (string * pyobj);
  Path : option string;
  App : option nat;
  BeingDestroyed : bool;
  AppURL : option string;
  _WebMethods : list (string * pyobj);
  inst_attrs : list (string * pyobj);
  session : option pyobj
}.

(** The object store. *)
Abbreviation store := (list WPHandler).

(** [isinstance(o, WPHandler)]: a handler reference that the store holds. *)
Definition isinstance_WPHandler (st : store) (o : pyobj) : bool :=
  match o with
  | OHandler id => bool_decide (is_Some (st !! id))
  | _ => false
  end.

(** [callable(o)]. *)
Definition callable (st : store) (o : pyobj) : bool :=
  match o with
  | OCallable _ _ => true
  | OHandler id =>
      match st !! id with
      | Some h => cls_callable h
      | None => false
      end
  | ONone | OData _ => false
  end.

Definition opt_str (o : option string) : pyobj :=
  match o with
  | Some s => OData s
  | None => ONone
  end.

(** The entries [WPHandler.__init__] puts into [self.__dict__], in the
    order of the assignments.  The application object is callable: [WPApp]
    defines [__call__]. *)
Definition init_dict (h : WPHandler) : list (string * pyobj) :=
  [ ("Request", OData "Request");
    ("Path", opt_str (Path h));
    ("App", match App h with Some _ => OCallable "WPApp" None | None => ONone end);
    ("BeingDestroyed", OData (if BeingDestroyed h then "True" else "False"));
    ("AppURL", opt_str (AppURL h));
    ("_WebMethods", OData "dict") ].

(** [self.__dict__]. *)
Definition instance_dict (h : WPHandler) : list (string * pyobj) :=
  init_dict h ++ inst_attrs h.

Definition bound_method (name : string) : string * pyobj := (name, OCallable name None).

(** The attributes of a handler that are data descriptors of its class
    and so are found before the instance dictionary is looked at:
    [__class__] (the class, which is callable), [__dict__] and
    [__weakref__].  The fourth one, the property [session] of lines
    361-363, is evaluated by [getattr] below. *)
Definition data_descriptors : list (string * pyobj) :=
  [ ("__class__", OCallable "__class__" None);
    ("__dict__", OData "dict");
    ("__weakref__", ONone) ].

(** The namespace of class [WPHandler]: its data attributes, the methods
    the source defines (none has a docstring), and the two entries every
    class body gets, [__module__] and [__doc__] (the class has no
    docstring).  The one member of the class that is not listed here is
    the property [session]: an instance does not find the property object
    under that name but the value the property computes, see [getattr]. *)
Definition WPHandler_class (h : WPHandler) : list (string * pyobj) :=
  [ ("Version", OData "");
    ("_Strict", OData (if _Strict h then "True" else "False"));
    ("_MethodNames", match _MethodNames h with Some _ => OData "list" | None => ONone end) ]
  ++ map bound_method
       [ "__init__"; "step_down"; "addHandler"; "_app_lock"; "initAtPath";
         "_checkPermissions"; "checkRoles"; "_destroy"; "destroy"; "jinja_globals";
         "add_globals"; "render_to_string"; "render_to_iterator"; "render_to_response";
         "mergeLines"; "render_to_response_iterator"; "redirect"; "getSessionData";
         "scriptUri"; "uriDir"; "renderTemplate"; "_env__" ]
  ++ [ ("__module__", OData "webpie.WPApp"); ("__doc__", ONone) ].

(** The methods a handler inherits from [object], the base of every class
    of Python 3 (the names are those of Python 3.6 to 3.10). *)
Definition object_class : list (string * pyobj) :=
  map bound_method
    [ "__repr__"; "__hash__"; "__str__"; "__getattribute__"; "__setattr__";
      "__delattr__"; "__lt__"; "__le__"; "__eq__"; "__ne__"; "__gt__"; "__ge__";
      "__new__"; "__reduce_ex__"; "__reduce__"; "__subclasshook__";
      "__init_subclass__"; "__format__"; "__sizeof__"; "__dir__" ].

(** [getattr(self, name)] where it returns, [None] where it does not.  The
    property [session] comes first: it returns the session of the request
    and fails when the request has none.  Every other name is looked up in
    the data descriptors, the instance dictionary, the class of the
    handler, [WPHandler] and [object], in this order.  A class that
    overrides [session] or a data descriptor is not modelled. *)
Definition getattr (h : WPHandler) (name : string) : option pyobj :=
  if String.eqb name "session" then session h
  else dict_get name (data_descriptors ++ instance_dict h ++ cls_attrs h
                        ++ WPHandler_class h ++ object_class).

(** [hasattr(self, name)] in Python 3: it calls [getattr] and turns
    [AttributeError], and no other exception, into [False].  The property
    [session] raises [KeyError] when the environment of the request has no
    key [webpie.session]. *)
Definition hasattr (h : WPHandler) (name : string) : result bool :=
  if String.eqb name "session" then
    match session h with
    | Some _ => Ok true
    | None => Raise (KeyError "webpie.session")
    end
  else Ok (bool_decide (is_Some (getattr h name))).

(** The second disjunct of the test in [step_down]:
    [hasattr(method, "__doc__") and method.__doc__ == _WebMethodSignature].
    Neither the function nor the module binds a name [method], so
    evaluating it raises [NameError]. *)
Definition tagged_check : result bool := Raise (NameError "method").

(** [WPHandler.step_down]; [Ok None] is Python's [None]. *)
Definition step_down (st : store) (h : WPHandler) (name : string) : result (option pyobj) :=
  let allowed := negb (_Strict h) in
  bind (hasattr h name) (fun found =>
  let '(attr, allowed) :=
    match (if found then getattr h name else None) with
    | Some a => (a, allowed)
    | None =>
        match dict_get name (_WebMethods h) with
        | Some a => (a, true)
        | None => (ONone, allowed)
        end
    end in
  match attr with
  | ONone => Ok None
  | _ =>
      if callable st attr then
        bind (if allowed then Ok true
              else if match _MethodNames h with
                      | Some names => existsb (String.eqb name) names
                      | None => false
                      end
                   then Ok true
                   else tagged_check)
             (fun allowed => if allowed then Ok (Some attr) else Ok None)
      else if isinstance_WPHandler st attr then Ok (Some attr)
      else Ok None
  end).

(** [WPHandler.addHandler]. *)
Definition addHandler (name : string) (method : pyobj) (h : WPHandler) : WPHandler :=
  mkHandler (_Strict h) (_MethodNames h) (cls_callable h) (cls_attrs h) (Path h) (App h)
            (BeingDestroyed h) (AppURL h) (Query.dict_set name method (_WebMethods h))
            (inst_attrs h) (session h).

(** [WPHandler.__init__(request, app)] for a class with the given class
    attributes and a request without a session; a handler that is not
    strict registers the [.env] page. *)
Definition WPHandler_init (strict : bool) (method_names : option (list string))
    (has_call : bool) (class_attrs : list (string * pyobj))
    (app : nat) (app_url : option string) : WPHandler :=
  let self := mkHandler strict method_names has_call class_attrs
                        None (Some app) false app_url [] [] None in
  if strict then self else addHandler ".env" (OCallable "_env__" None) self.

Definition set_Path (p : option string) (h : WPHandler) : WPHandler :=
  mkHandler (_Strict h) (_MethodNames h) (cls_callable h) (cls_attrs h) p (App h)
            (BeingDestroyed h) (AppURL h) (_WebMethods h) (inst_attrs h) (session h).

Definition set_App (a : option nat) (h : WPHandler) : WPHandler :=
  mkHandler (_Strict h) (_MethodNames h) (cls_callable h) (cls_attrs h) (Path h) a
            (BeingDestroyed h) (AppURL h) (_WebMethods h) (inst_attrs h) (session h).

Definition set_BeingDestroyed (b : bool) (h : WPHandler) : WPHandler :=
  mkHandler (_Strict h) (_MethodNames h) (cls_callable h) (cls_attrs h) (Path h) (App h)
            b (AppURL h) (_WebMethods h) (inst_attrs h) (session h).

(** *** Teardown: [WPHandler._destroy] *)

(** What a teardown does, in order: [Hook id] is a call [o.destroy()] of
    the overridable hook of handler [id]; [Teardown id] is one run of the
    guarded part of [_destroy] (lines 269-276) on handler [id]. *)
Inductive destroy_event : Type :=
| Hook (id : nat)
| Teardown (id : nat).

(** The loop [for k in self.__dict__] of [_destroy], over the entries
    still to visit; [destroy_rec] is the recursive call [o._destroy()].
    The entries that [WPHandler.__init__] creates never hold a handler. *)
Fixpoint destroy_loop (destroy_rec : store -> nat -> option (store * list destroy_event))
    (entries : list (string * pyobj)) (st : store) : option (store * list destroy_event) :=
  match entries with
  | [] => Some (st, [])
  | (_, o) :: rest =>
      if isinstance_WPHandler st o then
        match o with
        | OHandler c =>
            match destroy_rec st c with
            | Some (st1, tr1) =>
                match destroy_loop destroy_rec rest st1 with
                | Some (st2, tr2) => Some (st2, Hook c :: tr1 ++ tr2)
                | None => None
                end
            | None => None
            end
        | _ => destroy_loop destroy_rec rest st
        end
      else destroy_loop destroy_rec rest st
  end.

(** [WPHandler._destroy] on the handler [id] of the store.  The recursion
    of the source is not structural; [fuel] bounds its depth and [None]
    means that the bound was reached. *)
Fixpoint _destroy (fuel : nat) (st : store) (id : nat) : option (store * list destroy_event) :=
  match fuel with
  | O => None
  | S fuel' =>
      match st !! id with
      | None => Some (st, [])
      | Some h =>
          let st := <[id := set_App None h]> st in
          if BeingDestroyed h then Some (st, [])
          else
            let st := alter (set_BeingDestroyed true) id st in
            match destroy_loop (_destroy fuel') (inst_attrs h) st with
            | Some (st', tr) => Some (alter (set_BeingDestroyed false) id st', Teardown id :: tr)
            | None => None
            end
      end
  end.

(** How often handler [id] is torn down in a trace. *)
Definition is_teardown (id : nat) (e : destroy_event) : bool :=
  match e with
  | Teardown i => Nat.eqb i id
  | Hook _ => false
  end.

Definition teardowns (id : nat) (tr : list destroy_event) : nat :=
  length (List.filter (is_teardown id) tr).

(** The [BeingDestroyed] mark of handler [i], if the store holds it. *)
Definition flag (st : store) (i : nat) : option bool := BeingDestroyed <$> st !! i.

Definition is_marked (st : store) (i : nat) : Prop := flag st i = Some true.

(** The number of handlers whose mark is not set. *)
Definition unmarked_count (st : store) : nat :=
  length (List.filter negb (BeingDestroyed <$> st)).

(** Two stores whose handlers hold the same attributes. *)
Definition same_attrs (st st' : store) : Prop :=
  forall i, inst_attrs <$> st !! i = inst_attrs <$> st' !! i.

(** [reach st blocked a b]: handler [b] is found from handler [a] along
    instance attributes (entries of [__dict__]) that hold handlers,
    without passing through a handler in [blocked].  An attribute of the
    class of a handler is no step of such a path. *)
Inductive reach (st : store) (blocked : nat -> Prop) : nat -> nat -> Prop :=
| reach_here a h :
    st !! a = Some h -> ~ blocked a -> reach st blocked a a
| reach_attr a h k c b :
    st !! a = Some h -> ~ blocked a -> In (k, OHandler c) (inst_attrs h) ->
    reach st blocked c b -> reach st blocked a b.

(** What a call of [_destroy] with [fuel] achieves. *)
Definition destroy_spec (fuel : nat) : Prop :=
  forall st a,
    unmarked_count st < fuel ->
    exists st' tr,
      _destroy fuel st a = Some (st', tr) /\
      same_attrs st st' /\
      (forall i, flag st' i = flag st i) /\
      (forall i, is_marked st i -> teardowns i tr = 0) /\
      (forall b, reach st (is_marked st) a b -> 1 <= teardowns b tr) /\
      (forall b, 1 <= teardowns b tr -> reach st (is_marked st) a b).

(** [self.k = v] for each entry of [attrs], on a fresh handler. *)
Definition with_attrs (attrs : list (string * pyobj)) (h : WPHandler) : WPHandler :=
  mkHandler (_Strict h) (_MethodNames h) (cls_callable h) (cls_attrs h) (Path h) (App h)
            (BeingDestroyed h) (AppURL h) (_WebMethods h) (inst_attrs h ++ attrs)
            (session h).

(** The same handler for a request whose environment holds [webpie.session]. *)
Definition with_session (v : pyobj) (h : WPHandler) : WPHandler :=
  mkHandler (_Strict h) (_MethodNames h) (cls_callable h) (cls_attrs h) (Path h) (App h)
            (BeingDestroyed h) (AppURL h) (_WebMethods h) (inst_attrs h) (Some v).

Definition plain_handler : WPHandler := WPHandler_init false None false [] 0 None.

(** A root with two children that hold the same grandchild. *)
Definition shared_store : store :=
  [ with_attrs [("left", OHandler 1); ("right", OHandler 2)] plain_handler;
    with_attrs [("child", OHandler 3)] plain_handler;
    with_attrs [("child", OHandler 3)] plain_handler;
    plain_handler ].

(** A handler whose class has a class attribute that holds a handler. *)
Definition class_child_store : store :=
  [ WPHandler_init false None false [("child", OHandler 1)] 0 None;
    plain_handler ].

(** A handler and its child, each holding the other. *)
Definition cyclic_store : store :=
  [ with_attrs [("child", OHandler 1)] plain_handler;
    with_attrs [("parent", OHandler 0)] plain_handler ].

(** *** Path resolution: [WPApp.find_web_method] *)

(** What the resolver hands back: the pair [(method, relpath)], the raised
    [HTTPFound] redirect, or another exception. *)
Inductive outcome : Type :=
| Resolved (method : option pyobj) (relpath : string)
| Redirect (location : string)
| Fault (e : exn).

(** [WPApp.find_web_method]; [DefaultMethod] is [self.DefaultMethod].  The
    request and the query arguments are passed along unread and are left
    out. *)
Fixpoint find_web_method (DefaultMethod : string) (st : store) (handler : pyobj)
    (path : string) (path_down : list string) : store * outcome :=
  let path := str_or path "/" in
  let relpath := join "/" path_down in
  match handler with
  | OHandler id =>
      match st !! id with
      | Some h =>
          let h := set_Path (Some path) h in
          let st := <[id := h]> st in
          let here :=
            if cls_callable h then Resolved (Some handler) relpath
            else match path_down with
                 | [] => Redirect (ensure_slash path ++ DefaultMethod)
                 | _ :: _ => Resolved None relpath
                 end in
          match path_down with
          | name :: rest =>
              match step_down st h name with
              | Raise e => (st, Fault e)
              | Ok (Some attr) =>
                  find_web_method DefaultMethod st attr (ensure_slash path ++ name) rest
              | Ok None => (st, here)
              end
          | [] => (st, here)
          end
      | None => (st, Resolved None relpath)
      end
  | _ =>
      (st, if callable st handler then Resolved (Some handler) relpath
           else Resolved None relpath)
  end.

(** The path the resolver has accumulated when it has walked down the
    segments [segs] from [path]. *)
Fixpoint walked (path : string) (segs : list string) : string :=
  match segs with
  | [] => str_or path "/"
  | name :: rest => walked (ensure_slash (str_or path "/") ++ name) rest
  end.

(** Two handlers that differ in their [Path] at most, and two stores of
    such handlers. *)
Definition same_but_Path (h h' : WPHandler) : Prop :=
  set_Path None h = set_Path None h'.

Definition stores_same_but_Path (st st' : store) : Prop :=
  forall id, option_map (set_Path None) (st !! id) = option_map (set_Path None) (st' !! id).

(** A path segment as [wsgi_call] produces them: not empty and without a
    slash at its end. *)
Definition proper_segment (name : string) : Prop :=
  name <> "" /\ endswith slash name = false.

(** The chain of successful [step_down] calls that leads from handler [a],
    through the segments, to handler [b]. *)
Inductive descends (st : store) : nat -> list string -> nat -> Prop :=
| descends_nil a h : st !! a = Some h -> descends st a [] a
| descends_cons a h name c rest b :
    st !! a = Some h ->
    step_down st h name = Ok (Some (OHandler c)) ->
    descends st c rest b ->
    descends st a (name :: rest) b.

End Handlers.

(* ===================================================================== *)
(** ** Application Coordinator: [WPApp]                                   *)
(* ===================================================================== *)

Module Coordinator.
Import Handlers.

(** The attributes of a [WPApp] instance that the request entry point reads
    or writes. *)
Record WPApp : Type := mkApp {
  Prefix : option string;
  ReplacePrefix : option string;
  DefaultMethod : string;
  Environ : list (string * string);
  Initialized : bool;
  ScriptName : option string;
  Script : option string;
  ScriptHome : option string
}.

(** [WPApp.__init__] with its default arguments made explicit. *)
Definition WPApp_init (prefix : option string) (replace_prefix : option string)
    (default_method : string) (environ : list (string * string)) : WPApp :=
  mkApp prefix replace_prefix default_method environ false None None None.

(** What the process supplies: [os.environ.get('UWSGI_SCRIPT_FILENAME')],
    [sys.argv[0]] and the library function [os.path.dirname]. *)
Record process : Type := mkProcess {
  UWSGI_SCRIPT_FILENAME : option string;
  argv0 : string;
  dirname : string -> string
}.

(** [WPApp.convertPath]. *)
Definition convertPath (app : WPApp) (path : string) : option string :=
  match Prefix app with
  | Some prefix =>
      let matched :=
        if String.eqb path prefix then Some path
        else if startswith (prefix ++ "/") path then Some prefix
        else None in
      match matched with
      | None => None
      | Some m =>
          let path :=
            match ReplacePrefix app with
            | Some r => (r ++ slice_from (String.length m) path)%string
            | None => path
            end in
          Some (str_or path "/")
      end
  | None => Some path
  end.

(** [l.remove(x)], called on a list that holds [x]. *)
Fixpoint list_remove (x : string) (l : list string) : list string :=
  match l with
  | [] => []
  | y :: ys => if String.eqb y x then ys else y :: list_remove x ys
  end.

(** [while '' in path_down: path_down.remove('')]; [fuel] bounds the number
    of iterations. *)
Fixpoint remove_empty (fuel : nat) (path_down : list string) : list string :=
  match fuel with
  | O => path_down
  | S fuel' =>
      if existsb (String.eqb "") path_down
      then remove_empty fuel' (list_remove "" path_down)
      else path_down
  end.

(** Lines 604-606 of [wsgi_call]: the segments of the path.  The loop runs
    once per empty segment, so the length of the list is fuel enough. *)
Definition path_segments (path : string) : list string :=
  let path_down := split slash path in
  remove_empty (length path_down) path_down.

(** A segment that is not empty. *)
Definition nonempty (w : string) : bool := negb (String.eqb w "").

(** [environ.get(k, d)]. *)
Definition environ_get (environ : list (string * string)) (k d : string) : string :=
  default d (dict_get k environ).

(** Lines 603-610 of [wsgi_call]: the call of the resolver. *)
Definition wsgi_resolve (app : WPApp) (st : store) (root_handler : pyobj)
    (environ : list (string * string)) : store * outcome :=
  let path := environ_get environ "PATH_INFO" "" in
  find_web_method (DefaultMethod app) st root_handler "" (path_segments path).

(** [d.update(e)]. *)
Definition dict_update (d e : list (string * string)) : list (string * string) :=
  fold_left (fun d kv => Query.dict_set (fst kv) (snd kv) d) e d.

(** What one run of the entry point does to the application, in order. *)
Inductive app_event : Type :=
| ScriptHomeResolved (home : string)
| InitCall.

(** How the entry point goes on after its first part. *)
Inductive entry : Type :=
| PrefixMismatch                                   (* [HTTPNotFound()] *)
| RequestFault (e : exn)                           (* [Request(environ)] raised *)
| Dispatch (environ : list (string * string)).     (* on to the root handler *)

(** The overridable hook [WPApp.init]; the source's body is [pass]. *)
Definition init (app : WPApp) : WPApp * list app_event := (app, [InitCall]).

(** [WPApp.__call__] up to the construction of the root handler (lines
    641-669).  [Request.__init__] reads [environ['QUERY_STRING']]. *)
Definition WPApp_call (proc : process) (app : WPApp) (environ : list (string * string))
    : WPApp * list app_event * entry :=
  let path := environ_get environ "PATH_INFO" "" in
  let environ :=
    match dict_get "WebPie.original_path" environ with
    | Some _ => environ
    | None => Query.dict_set "WebPie.original_path" path environ
    end in
  let environ := dict_update environ (Environ app) in
  match convertPath app path with
  | None => (app, [], PrefixMismatch)
  | Some path =>
      let environ := Query.dict_set "PATH_INFO" path environ in
      match dict_get "QUERY_STRING" environ with
      | None => (app, [], RequestFault (KeyError "QUERY_STRING"))
      | Some _ =>
          if Initialized app then (app, [], Dispatch environ)
          else
            let script_name := environ_get environ "SCRIPT_NAME" "" in
            let script :=
              match dict_get "SCRIPT_FILENAME" environ with
              | Some s => Some s
              | None => UWSGI_SCRIPT_FILENAME proc
              end in
            let home :=
              str_or (dirname proc (str_or (default "" script) (argv0 proc))) "." in
            let app := mkApp (Prefix app) (ReplacePrefix app) (DefaultMethod app)
                             (Environ app) (Initialized app)
                             (Some script_name) script (Some home) in
            let '(app, ev1) := init app in
            let app := mkApp (Prefix app) (ReplacePrefix app) (DefaultMethod app)
                             (Environ app) true
                             (ScriptName app) (Script app) (ScriptHome app) in
            let '(app, ev2) := init app in
            (app, ScriptHomeResolved home :: ev1 ++ ev2, Dispatch environ)
      end
  end.

(** The application over a sequence of requests: the events of all of
    them, in order. *)
Fixpoint serve (proc : process) (app : WPApp) (requests : list (list (string * string)))
    : WPApp * list app_event :=
  match requests with
  | [] => (app, [])
  | environ :: rest =>
      let '(app1, ev, _) := WPApp_call proc app environ in
      let '(app2, evs) := serve proc app1 rest in
      (app2, ev ++ evs)
  end.

Definition is_init_call (e : app_event) : bool :=
  match e with
  | InitCall => true
  | ScriptHomeResolved _ => false
  end.

(** The number of calls of [init] in a run. *)
Definition init_calls (evs : list app_event) : nat :=
  length (List.filter is_init_call evs).

End Coordinator.

(* ===================================================================== *)
(** ** Further shapes of the Response Model                               *)
(* ===================================================================== *)

Module ResponseShapes.
Import ResponseModel.

(** The bytes of a chunk that [to_bytes] converts. *)
Definition chunk_bytes (x : pyval) : bytes :=
  match x with
  | PBytes b => b
  | PStr s => encode_utf8 s
  | _ => []
  end.

(** The body a body-like element gives to the response. *)
Definition body_of (b : pyval) : Body :=
  match b with
  | PDict d => BodyJson d
  | PBytes x => BodyChunks [x]
  | PStr s => BodyText s
  | PList l => BodyChunks (map chunk_bytes l)
  | PTuple l | PIter l => BodyLazy l
  | _ => BodyEmpty
  end.

(** The exception a body-like element raises when it does not convert. *)
Definition body_fault (b : pyval) : exn :=
  match b with
  | PDict _ => TypeError
  | _ => AttributeError
  end.

End ResponseShapes.

(* ===================================================================== *)
(** ** Further notions for the path resolver                              *)
(* ===================================================================== *)

Module ResolverShapes.
Import Handlers.

(** The [path] argument of the resolver call that follows the descent
    through [segs], started with [path]. *)
Fixpoint passed (path : string) (segs : list string) : string :=
  match segs with
  | [] => path
  | name :: rest => passed (ensure_slash (str_or path "/") ++ name) rest
  end.

(** The descent stops at handler [h] with the segments [rest] left: none
    is left, or [step_down] finds nothing for the first of them. *)
Definition stops_at (st : store) (h : WPHandler) (rest : list string) : Prop :=
  match rest with
  | [] => True
  | name :: _ => step_down st h name = Ok None
  end.

(** A root whose attribute [a] holds a handler whose attribute [b] holds
    a callable handler. *)
Definition nested_store : store :=
  [ with_attrs [("a", OHandler 1)] plain_handler;
    with_attrs [("b", OHandler 2)] plain_handler;
    WPHandler_init false None true [] 0 None ].

End ResolverShapes.

(* ===================================================================== *)
(** ** Template helpers of [WPHandler]                                    *)
(* ===================================================================== *)

Module Templates.

(** The loop of [WPHandler.mergeLines] over the lines still to come, with
    the buffer [buf]; the result lists what the generator yields, in
    order.  [n] is any integer. *)
Fixpoint mergeLines_loop (n : Z) (lines : list string) (buf : list string) : list string :=
  match lines with
  | [] =>
      match buf with
      | [] => []
      | _ :: _ => [join "" buf]
      end
  | l :: rest =>
      if (n <=? Z.of_nat (length buf))%Z
      then join "" buf :: mergeLines_loop n rest [l]
      else mergeLines_loop n rest (buf ++ [l])
  end.

(** [WPHandler.mergeLines(iter, n)]. *)
Definition mergeLines (iter : list string) (n : Z) : list string :=
  mergeLines_loop n iter [].

(** The lines [render_to_response_iterator] puts into the response
    (lines 329-334): merged when [_merge_lines > 1]. *)
Definition merged_lines (it : list string) (_merge_lines : Z) : list string :=
  if (1 <? _merge_lines)%Z then mergeLines it _merge_lines else it.

End Templates.

(* ===================================================================== *)
(** ** Further notions for the teardown                                   *)
(* ===================================================================== *)

Module TeardownShapes.
Import Handlers.

(** A handler without what a teardown writes: its [App] and its mark. *)
Definition core (h : WPHandler) : WPHandler :=
  set_App None (set_BeingDestroyed false h).

(** [evolves st st']: the stores hold the same handlers, which differ in
    [App] and in the mark at most, and no [App] that was cleared is set
    again. *)
Definition evolves (st st' : store) : Prop :=
  forall i,
    match st !! i, st' !! i with
    | Some h, Some h' => core h = core h' /\ (App h = None -> App h' = None)
    | None, None => True
    | _, _ => False
    end.

(** The handler [b] of the store has lost its application. *)
Definition app_cleared (st : store) (b : nat) : Prop :=
  exists h, st !! b = Some h /\ App h = None.

End TeardownShapes.

(* ===================================================================== *)
(** ** Template parameters: [add_globals]                                 *)
(* ===================================================================== *)

Module Globals.
Import Handlers Coordinator.

(** The values of template parameters. *)
Inductive tvalue : Type :=
| TNone
| TStr (s : string)
| TApp                      (* the application object *)
| TValue (repr : string).   (* any other value *)

Abbreviation params := (list (string * tvalue)).

(** [d.update(e)]: the entries of [e] are set in [d], in their order. *)
Definition update {V} (d e : list (string * V)) : list (string * V) :=
  fold_left (fun d kv => Query.dict_set (fst kv) (snd kv) d) e d.

(** The value [e] gives to [k]: the last one, should the list repeat the
    key. *)
Definition binding {V} (k : string) (e : list (string * V)) : option V :=
  dict_get k (rev e).

(** What [add_globals] reads of the application: the class attribute
    [Version], the attribute [JGlobals], which exists only once
    [initJinjaEnvironment] or [setJinjaGlobals] has run, and what the
    overridable [jinja_globals()] returns. *)
Record templates : Type := mkTemplates {
  Version : string;
  JGlobals : option params;
  app_jinja_globals : params
}.

(** [WPApp.add_globals(d)]. *)
Definition WPApp_add_globals (app : templates) (d : params) : result params :=
  match JGlobals app with
  | None => Raise AttributeError
  | Some g => Ok (update (update (update [] g) (app_jinja_globals app)) d)
  end.

(** [WPHandler.scriptUri()], from the environment of the request and that
    of the process. *)
Definition scriptUri (request_environ os_environ : list (string * string)) : string :=
  environ_get request_environ "SCRIPT_NAME" (environ_get os_environ "SCRIPT_NAME" "").

Definition opt_tstr (o : option string) : tvalue :=
  match o with
  | Some s => TStr s
  | None => TNone
  end.

(** The dictionary that [WPHandler.add_globals] starts from. *)
Definition handler_params (h : WPHandler) (app : templates) (proc : process)
    (request_environ os_environ : list (string * string)) : params :=
  let uri := scriptUri request_environ os_environ in
  let dir := dirname proc uri in
  [ ("APP_URL", opt_tstr (AppURL h));
    ("MY_PATH", opt_tstr (Path h));
    ("GLOBAL_AppTopPath", TStr uri);
    ("GLOBAL_AppDirPath", TStr dir);
    ("GLOBAL_ImagesPath", TStr (dir ++ "/images"));
    ("GLOBAL_AppVersion", TStr (Version app));
    ("GLOBAL_AppObject", TApp) ].

(** [WPHandler.add_globals(d)]; [app] is the application that [self.App]
    refers to while it is set, and [handler_jinja_globals] is what the
    overridable [jinja_globals()] of the handler returns. *)
Definition WPHandler_add_globals (h : WPHandler) (app : templates) (proc : process)
    (request_environ os_environ : list (string * string))
    (handler_jinja_globals : params) (d : params) : result params :=
  match App h with
  | None => Raise AttributeError
  | Some _ =>
      bind (WPApp_add_globals app (handler_params h app proc request_environ os_environ))
           (fun p => Ok (update (update p handler_jinja_globals) d))
  end.

End Globals.

(* ===================================================================== *)
(** ** The end of a request: coercion and teardown                        *)
(* ===================================================================== *)

Module Pipeline.
Import ResponseModel Handlers.

Definition newline : string := String (ascii_of_nat 10) "".

(** Modelled from the spec: [Response(text, status = ...)], a response
    with the given status whose body is the text; of the status line
    ['500 Application Error'] the model keeps the code. *)
Definition Response_text (text : string) (code : Z) : Response :=
  {| status := code;
     content_type := default_content_type;
     headers := [];
     body := BodyText text |}.

Definition uncaught_exception : string := "Uncaught exception".

Section Library.

(** What Python's library supplies: [traceback.format_exception], the
    lines that tell the exception being handled and the calls that led to
    it, and [repr]. *)
Variable format_exception : exn -> list string.
Variable repr : pyval -> string.

(** [str(e)] for the [ValueError] that line 182 raises. *)
Definition ValueError_str (offending : pyval) : string :=
  ("Can not convert to a Response: " ++ repr offending)%string.

(** [WPApp.applicationErrorResponse]; [exc_info] is the exception that
    [sys.exc_info()] tells, the one being handled. *)
Definition applicationErrorResponse (headline : string) (exc_info : exn) : Response :=
  let exc_text := join "" (format_exception exc_info) in
  let text :=
    ("<html><body><h2>Application error</h2>" ++ newline ++
     "            <h3>" ++ headline ++ "</h3>" ++ newline ++
     "            <pre>" ++ exc_text ++ "</pre>" ++ newline ++
     "            </body>" ++ newline ++
     "            </html>")%string in
  Response_text text 500.

(** Lines 631-639 of [wsgi_call], from the value that its first [try]
    block leaves in [response]: the coercion, the diagnostic response for
    the invalid-response error, and the teardown of the root handler.
    Handing the response to the server (line 635) is taken to return.
    [None] means that the teardown ran out of [fuel]. *)
Definition wsgi_finish (fuel : nat) (st : store) (root_handler : pyobj) (response : pyval)
    : option (result (Response * store * list destroy_event)) :=
  let coerced :=
    match makeResponse response with
    | Ok r => Ok r
    | Raise (ValueError v) =>
        Ok (applicationErrorResponse (ValueError_str v) (ValueError v))
    | Raise e => Raise e
    end in
  match coerced with
  | Raise e => Some (Raise e)
  | Ok r =>
      if isinstance_WPHandler st root_handler then
        match root_handler with
        | OHandler id =>
            match _destroy fuel st id with
            | Some (st', tr) => Some (Ok (r, st', Hook id :: tr))
            | None => None
            end
        | _ => Some (Ok (r, st, []))
        end
      else Some (Ok (r, st, []))
  end.

(** Lines 674-679 of [WPApp.__call__] around that: any exception that
    leaves [wsgi_call] gives the diagnostic response for it. *)
Definition call_finish (fuel : nat) (st : store) (root_handler : pyobj) (response : pyval)
    : option (Response * store * list destroy_event) :=
  match wsgi_finish fuel st root_handler response with
  | Some (Ok served) => Some served
  | Some (Raise e) => Some (applicationErrorResponse uncaught_exception e, st, [])
  | None => None
  end.

End Library.

(** A library whose trace is one line and whose [repr] tells nothing. *)
Definition one_line_trace (e : exn) : list string :=
  [ match e with
    | ValueError _ => "ValueError"
    | TypeError => "TypeError"
    | AttributeError => "AttributeError"
    | NameError _ => "NameError"
    | KeyError _ => "KeyError"
    end ].

Definition opaque_repr (v : pyval) : string := "...".

End Pipeline.

(* ===================================================================== *)
(** ** Shared list facts                                                  *)
(* ===================================================================== *)

Module ListFacts.

Lemma omap_cons {A B} (f : A -> option B) x l :
  omap f (x :: l) = match f x with Some y => y :: omap f l | None => omap f l end.
Proof. reflexivity. Qed.

Lemma forallb_Forall {A} (p : A -> bool) (l : list A) :
  forallb p l = true -> Forall (fun x => p x = true) l.
Proof.
  intros H. apply List.Forall_forall. intros x Hx.
  exact (proj1 (List.forallb_forall p l) H x Hx).
Qed.

Lemma dict_get_app {V} (k : string) (d1 d2 : list (string * V)) :
  dict_get k (d1 ++ d2) =
    match dict_get k d1 with
    | Some v => Some v
    | None => dict_get k d2
    end.
Proof.
  induction d1 as [|[k' v] d1 IH]; cbn [app dict_get]; [reflexivity|].
  destruct (String.eqb k k'); [reflexivity | exact IH].
Qed.

End ListFacts.
Import ListFacts.

(* ===================================================================== *)
(** ** Properties of the Response Model                                   *)
(* ===================================================================== *)

Module ResponseTheory.
Import ResponseModel.

Lemma loop_body_fixed resp x st :
  body_fixed st = true -> loop_body resp x st = meta_branch resp x st.
Proof.
  unfold body_fixed, loop_body.
  destruct (l_app_iter st), (l_text st); intros H; try reflexivity; discriminate.
Qed.

Lemma loop_body_open resp x st :
  body_fixed st = false ->
  loop_body resp x st =
    match body_branch x st with Some r => r | None => meta_branch resp x st end.
Proof.
  unfold body_fixed, loop_body.
  destruct (l_app_iter st), (l_text st); intros H; try reflexivity; discriminate.
Qed.

(** An element read as status, headers or content-type updates that local
    and nothing else. *)
Lemma meta_branch_ok resp x st :
  is_meta x = true ->
  exists st',
    meta_branch resp x st = Ok st' /\
    l_app_iter st' = l_app_iter st /\ l_text st' = l_text st /\
    l_status st' = pick_last as_int [x] (l_status st) /\
    l_headers st' = pick_last as_dict [x] (l_headers st) /\
    l_content_type st' = pick_last as_str [x] (l_content_type st).
Proof.
  destruct x; simpl; try discriminate; intros _; eexists; repeat split.
Qed.


Lemma pick_last_app {A} (f : pyval -> option A) l1 l2 init :
  pick_last f (l1 ++ l2) init = pick_last f l2 (pick_last f l1 init).
Proof. unfold pick_last. apply fold_left_app. Qed.

Lemma pick_last_cons {A} (f : pyval -> option A) x l init :
  pick_last f (x :: l) init = pick_last f l (pick_last f [x] init).
Proof. reflexivity. Qed.

(** Once the body is fixed, a run of mappings, integers and strings is
    accepted; each local ends with the last element of its kind. *)
Lemma for_parts_meta resp post : forall st,
  body_fixed st = true ->
  Forall (fun x => is_meta x = true) post ->
  exists st',
    for_parts resp post st = Ok st' /\
    l_app_iter st' = l_app_iter st /\ l_text st' = l_text st /\
    l_status st' = pick_last as_int post (l_status st) /\
    l_headers st' = pick_last as_dict post (l_headers st) /\
    l_content_type st' = pick_last as_str post (l_content_type st).
Proof.
  induction post as [|x post IH]; intros st Hfix Hall.
  - exists st. repeat split.
  - inversion Hall as [|? ? Hx Hpost]; subst.
    destruct (meta_branch_ok resp x st Hx) as (st1 & E1 & Ha & Ht & Hs & Hh & Hc).
    assert (Hfix1 : body_fixed st1 = true).
    { unfold body_fixed in *. rewrite Ha, Ht. exact Hfix. }
    destruct (IH st1 Hfix1 Hpost) as (st2 & E2 & Ha2 & Ht2 & Hs2 & Hh2 & Hc2).
    exists st2. simpl. rewrite (loop_body_fixed _ _ _ Hfix), E1. simpl.
    rewrite E2, Ha2, Ht2, Hs2, Hh2, Hc2, Ha, Ht, Hs, Hh, Hc.
    repeat split.
Qed.



(** Before the body, an integer is the status. *)
Lemma loop_body_int resp x st :
  body_fixed st = false -> is_int x = true ->
  exists st',
    loop_body resp x st = Ok st' /\ body_fixed st' = false /\
    l_status st' = pick_last as_int [x] (l_status st) /\
    l_headers st' = l_headers st /\ l_content_type st' = l_content_type st.
Proof.
  intros Hopen Hx. rewrite (loop_body_open _ _ _ Hopen).
  destruct x; try discriminate. simpl. eexists. repeat split. exact Hopen.
Qed.

Lemma for_parts_ints resp pre rest : forall st,
  body_fixed st = false ->
  Forall (fun x => is_int x = true) pre ->
  exists st',
    for_parts resp (pre ++ rest) st = for_parts resp rest st' /\
    body_fixed st' = false /\
    l_status st' = pick_last as_int pre (l_status st) /\
    l_headers st' = l_headers st /\ l_content_type st' = l_content_type st.
Proof.
  induction pre as [|x pre IH]; intros st Hopen Hall.
  - exists st. repeat split. exact Hopen.
  - inversion Hall as [|? ? Hx Hpre]; subst.
    destruct (loop_body_int resp x st Hopen Hx) as (st1 & E1 & Ho1 & Hs1 & Hh1 & Hc1).
    destruct (IH st1 Ho1 Hpre) as (st2 & E2 & Ho2 & Hs2 & Hh2 & Hc2).
    exists st2. simpl. rewrite E1. simpl. rewrite E2, Hs2, Hh2, Hc2, Hs1, Hh1, Hc1.
    repeat split. exact Ho2.
Qed.

Lemma list_comprehension_chunks l :
  forallb is_chunk l = true -> exists bs, list_comprehension to_bytes l = Ok bs.
Proof.
  induction l as [|x l IH]; simpl; intros H.
  - eexists; reflexivity.
  - apply andb_true_iff in H as [Hx Hl]. destruct (IH Hl) as [bs ->].
    destruct x; try discriminate; simpl; eexists; reflexivity.
Qed.

Lemma list_comprehension_fault l :
  forallb is_chunk l = false -> list_comprehension to_bytes l = Raise AttributeError.
Proof.
  induction l as [|x l IH]; simpl; intros H; [discriminate|].
  apply andb_false_iff in H.
  destruct x; simpl; try reflexivity.
  - destruct H as [H|H]; [discriminate|]. rewrite (IH H). reflexivity.
  - destruct H as [H|H]; [discriminate|]. rewrite (IH H). reflexivity.
Qed.

Ltac fixes_body Ea :=
  eexists; repeat split; unfold body_fixed; simpl; try rewrite Ea; reflexivity.

(** Before the body, a body-like element that converts fixes the body; a
    mapping also sets the content-type to ["text/json"]. *)
Lemma loop_body_body resp b st :
  body_fixed st = false -> is_body b = true -> body_converts b = true ->
  exists st',
    loop_body resp b st = Ok st' /\ body_fixed st' = true /\
    l_status st' = l_status st /\ l_headers st' = l_headers st /\
    l_content_type st' =
      match b with PDict _ => Some "text/json" | _ => l_content_type st end.
Proof.
  intros Hopen Hb Hconv. rewrite (loop_body_open _ _ _ Hopen).
  unfold body_fixed in Hopen.
  destruct (l_app_iter st) eqn:Ea; [discriminate|].
  destruct (l_text st) eqn:Et; [discriminate|].
  destruct b; try discriminate; cbn [body_branch].
  - fixes_body Ea.
  - fixes_body Ea.
  - cbn [body_converts] in Hconv. rewrite Hconv. fixes_body Ea.
  - cbn [body_converts] in Hconv.
    destruct (list_comprehension_chunks _ Hconv) as [bs ->]. fixes_body Ea.
  - fixes_body Ea.
  - fixes_body Ea.
Qed.






Lemma makeResponse_unfold v :
  (forall r, v <> PResponse r) -> is_int v = false ->
  makeResponse v =
    bind (for_parts (as_tuple v) (as_tuple v) locals_init) (fun st => Ok (build st)).
Proof.
  intros Hr Hi. destruct v; try reflexivity.
  exfalso. eapply Hr. reflexivity.
Qed.



(** *** The fields of the response built from a tuple *)

Lemma pick_last_none {A} (f : pyval -> option A) l : forall init,
  omap f l = [] -> pick_last f l init = init.
Proof.
  induction l as [|x l IH]; intros init H; [reflexivity|].
  rewrite pick_last_cons. rewrite omap_cons in H. unfold pick_last at 2. simpl.
  destruct (f x); [discriminate|]. apply IH. exact H.
Qed.

(** With at most one element of a kind, the last one is the only one. *)
Lemma pick_last_head {A} (f : pyval -> option A) l : forall init,
  length (omap f l) <= 1 ->
  pick_last f l init = match head (omap f l) with Some v => Some v | None => init end.
Proof.
  induction l as [|x l IH]; intros init H; [reflexivity|].
  rewrite pick_last_cons. rewrite omap_cons in *. unfold pick_last at 2.
  cbn [fold_left].
  destruct (f x) as [v|].
  - rewrite pick_last_none; [reflexivity|].
    destruct (omap f l); [reflexivity | cbn [length] in H; lia].
  - apply IH. exact H.
Qed.

Lemma build_status st : status (build st) = default default_status (l_status st).
Proof.
  unfold build.
  destruct (l_headers st), (l_content_type st) as [ct|], (l_text st);
    try destruct (String.eqb ct ""); reflexivity.
Qed.

Lemma build_headers st : headers (build st) = default [] (l_headers st).
Proof.
  unfold build.
  destruct (l_headers st), (l_content_type st) as [ct|], (l_text st);
    try destruct (String.eqb ct ""); reflexivity.
Qed.

Lemma build_content_type st :
  content_type (build st) =
    let base :=
      match l_headers st with
      | Some h => default default_content_type (implied_content_type h)
      | None => default_content_type
      end in
    match l_content_type st with
    | Some ct => if String.eqb ct "" then base else ct
    | None => base
    end.
Proof.
  unfold build.
  destruct (l_headers st), (l_content_type st) as [ct|], (l_text st);
    try destruct (String.eqb ct ""); reflexivity.
Qed.

(** C5, as the code has it: for a tuple of at most one integer (anywhere),
    then one body-like element, then at most one mapping and at most one
    string (after the body, in any order), the response has the integer as
    status (else the default), the mapping as headers (else none), and as
    content-type the string when there is one and it is not empty, else
    ["text/json"] when there is no string and the body is a mapping, else
    the content-type the mapping implies, else the default. *)
Theorem makeResponse_tuple_fields (pre post : list pyval) (b : pyval) :
  forallb is_int pre = true ->
  is_body b = true -> body_converts b = true ->
  forallb is_meta post = true ->
  length (omap as_int (pre ++ post)) <= 1 ->
  length (omap as_dict post) <= 1 ->
  length (omap as_str post) <= 1 ->
  exists r,
    makeResponse (PTuple (pre ++ b :: post)) = Ok r /\
    status r = default default_status (head (omap as_int (pre ++ post))) /\
    headers r = default [] (head (omap as_dict post)) /\
    content_type r =
      final_content_type b (head (omap as_str post)) (head (omap as_dict post)).
Proof.
  intros Hpre Hb Hconv Hpost Hint Hdict Hstr.
  apply forallb_Forall in Hpre. apply forallb_Forall in Hpost.
  set (resp := pre ++ b :: post).
  change (makeResponse (PTuple resp))
    with (bind (for_parts resp resp locals_init) (fun st => Ok (build st))).
  unfold resp at 2.
  destruct (for_parts_ints resp pre (b :: post) locals_init eq_refl Hpre)
    as (st1 & E1 & Ho1 & Hs1 & Hh1 & Hc1).
  destruct (loop_body_body resp b st1 Ho1 Hb Hconv) as (st2 & E2 & Hf2 & Hs2 & Hh2 & Hc2).
  destruct (for_parts_meta resp post st2 Hf2 Hpost) as (st3 & E3 & _ & _ & Hs3 & Hh3 & Hc3).
  rewrite E1. cbn [for_parts]. rewrite E2. cbn [bind]. rewrite E3. cbn [bind].
  exists (build st3). split; [reflexivity|].
  rewrite build_status, build_headers, build_content_type.
  rewrite Hs3, Hh3, Hc3, Hs2, Hh2, Hc2, Hs1, Hh1, Hc1.
  cbn [l_status l_headers l_content_type locals_init].
  rewrite <- pick_last_app.
  rewrite (pick_last_head as_int _ _ Hint), (pick_last_head as_dict _ _ Hdict),
          (pick_last_head as_str _ _ Hstr).
  unfold final_content_type.
  generalize (head (omap as_int (pre ++ post))) (head (omap as_dict post))
             (head (omap as_str post)).
  intros [n|] [h|] [s|]; destruct b; repeat split; reflexivity.
Qed.

(** A tuple that C5 covers: status, body, headers and content-type. *)
Lemma makeResponse_tuple_fields_witness :
  exists r,
    makeResponse (PTuple ([PInt 201] ++ PStr "created"
                            :: [PDict [("X-Tag", PStr "1")]; PStr "text/plain"])) = Ok r /\
    status r = 201%Z /\
    headers r = [("X-Tag", PStr "1")] /\
    content_type r = "text/plain".
Proof.
  apply (makeResponse_tuple_fields [PInt 201]
           [PDict [("X-Tag", PStr "1")]; PStr "text/plain"] (PStr "created"));
    first [reflexivity | simpl; lia].
Defined.

(** C5, counterexample: the claimed fields fail for a mapping body whose
    headers imply a content-type (["text/json"] wins), for a mapping or a
    string placed before the body (the first is taken as the body and the
    byte string is refused), and for an empty content-type string. *)
Lemma tuple_fields_counterexample :
  (exists r,
     makeResponse (PTuple [PDict [("a", PInt 1)];
                           PDict [("Content-Type", PStr "text/html")]]) = Ok r /\
     implied_content_type (headers r) = Some "text/html" /\
     content_type r = "text/json") /\
  (exists e,
     makeResponse (PTuple [PDict [("X-Tag", PStr "1")]; PBytes []]) = Raise e) /\
  (exists e,
     makeResponse (PTuple [PStr "text/plain"; PBytes []]) = Raise e) /\
  (exists r,
     makeResponse (PTuple [PBytes []; PStr ""]) = Ok r /\
     content_type r <> "").
Proof.
  repeat split.
  - eexists. repeat split.
  - eexists. reflexivity.
  - eexists. reflexivity.
  - eexists. split; [reflexivity|]. discriminate.
Qed.

End ResponseTheory.

(* ===================================================================== *)
(** ** Properties of the Permission Gate                                  *)
(* ===================================================================== *)

Module GateTheory.
Import PermissionGate.

Lemma role_in_In r permissions : role_in r permissions = true <-> In r permissions.
Proof.
  unfold role_in. rewrite existsb_exists. split.
  - intros (x & Hx & E). apply String.eqb_eq in E. subst. exact Hx.
  - intros H. exists r. split; [exact H | apply String.eqb_refl].
Qed.

(** The loop leaves through [break] exactly when some fetched role is a
    required one. *)
Lemma for_roles_spec roles permissions :
  for_roles roles permissions = true <-> exists r, In r roles /\ In r permissions.
Proof.
  induction roles as [|x roles IH]; simpl.
  - split; [discriminate | intros (r & [] & _)].
  - destruct (role_in x permissions) eqn:E.
    + split; [|reflexivity]. intros _. exists x. split; [left; reflexivity|].
      apply role_in_In. exact E.
    + rewrite IH. split.
      * intros (r & Hr & Hp). exists r. split; [right; exact Hr | exact Hp].
      * intros (r & [-> | Hr] & Hp).
        -- apply role_in_In in Hp. congruence.
        -- exists r. split; assumption.
Qed.

Section Gate.
Context {Handler Request Params R : Type}.
Variable _roles : Handler -> Request -> string -> result roles_value.
Variable method : Handler -> Request -> string -> Params -> result R.

(** The outcome of the wrapper by what the role lookup did. *)
Lemma decorated_by_roles (permissions : list string) (handler : Handler)
    (request : Request) (relpath : string) (params : Params) (roles : roles_value) :
  _roles handler request relpath = Ok roles ->
  decorated _roles method (Some permissions) handler request relpath params =
    if for_roles (roles_list roles) permissions
    then ([CallRoles; CallMethod], call_method method handler request relpath params)
    else ([CallRoles], Ok (HTTPForbidden None)).
Proof. intros H. unfold decorated. rewrite H. reflexivity. Qed.

(** C6: without a requirement the wrapped method is called with no role
    lookup.  With a requirement: when the role lookup raises, the
    wrapper returns Forbidden and does not call the method.  When the
    lookup returns one string, the method is called and its result handed
    back if that string is a required role, and the wrapper returns
    Forbidden without calling the method if it is not: the string counts
    as a list of one role.  When the lookup returns a list, the method is
    called and its result handed back if some role of the list is
    required, and the wrapper returns Forbidden without calling the
    method if none is. *)
Theorem webmethod_gate (handler : Handler) (request : Request) (relpath : string)
    (params : Params) :
  decorated _roles method None handler request relpath params =
    ([CallMethod], call_method method handler request relpath params) /\
  forall permissions : list string,
    (forall e, _roles handler request relpath = Raise e ->
       decorated _roles method (Some permissions) handler request relpath params =
         ([CallRoles], Ok (HTTPForbidden (Some not_authorized)))) /\
    (forall s, _roles handler request relpath = Ok (RolesStr s) ->
       In s permissions ->
       decorated _roles method (Some permissions) handler request relpath params =
         ([CallRoles; CallMethod], call_method method handler request relpath params)) /\
    (forall s, _roles handler request relpath = Ok (RolesStr s) ->
       ~ In s permissions ->
       decorated _roles method (Some permissions) handler request relpath params =
         ([CallRoles], Ok (HTTPForbidden None))) /\
    (forall l, _roles handler request relpath = Ok (RolesList l) ->
       (exists r, In r l /\ In r permissions) ->
       decorated _roles method (Some permissions) handler request relpath params =
         ([CallRoles; CallMethod], call_method method handler request relpath params)) /\
    (forall l, _roles handler request relpath = Ok (RolesList l) ->
       ~ (exists r, In r l /\ In r permissions) ->
       decorated _roles method (Some permissions) handler request relpath params =
         ([CallRoles], Ok (HTTPForbidden None))).
Proof.
  split; [reflexivity|]. intros permissions.
  split; [|split; [|split; [|split]]].
  - intros e H. unfold decorated. rewrite H. reflexivity.
  - intros s H Hin. rewrite (decorated_by_roles _ _ _ _ _ _ H).
    cbn [roles_list for_roles].
    apply role_in_In in Hin. rewrite Hin. reflexivity.
  - intros s H Hno. rewrite (decorated_by_roles _ _ _ _ _ _ H).
    cbn [roles_list for_roles].
    destruct (role_in s permissions) eqn:E; [|reflexivity].
    exfalso. apply Hno. apply role_in_In. exact E.
  - intros l H Hex. rewrite (decorated_by_roles _ _ _ _ _ _ H).
    cbn [roles_list]. apply for_roles_spec in Hex. rewrite Hex. reflexivity.
  - intros l H Hno. rewrite (decorated_by_roles _ _ _ _ _ _ H).
    cbn [roles_list].
    destruct (for_roles l permissions) eqn:E; [|reflexivity].
    exfalso. apply Hno. apply for_roles_spec. exact E.
Qed.
End Gate.

(** A method that requires the role ["admin"] or the role ["editor"],
    called by a caller whose role lookup returns the one string
    ["editor"]. *)
Lemma webmethod_gate_witness :
  decorated (fun (_ _ : unit) (_ : string) => Ok (RolesStr "editor"))
            (fun (_ _ : unit) (_ : string) (_ : unit) => Ok 7)
            (Some ["admin"; "editor"]) tt tt "" tt
    = ([CallRoles; CallMethod], Ok (Returned 7)).
Proof.
  apply (proj1 (proj2 (proj2 (webmethod_gate
           (fun (_ _ : unit) (_ : string) => Ok (RolesStr "editor"))
           (fun (_ _ : unit) (_ : string) (_ : unit) => Ok 7) tt tt "" tt)
           ["admin"; "editor"]))
         "editor" eq_refl).
  right. left. reflexivity.
Defined.

End GateTheory.

(* ===================================================================== *)
(** ** Properties of the query parser                                     *)
(* ===================================================================== *)

Module QueryTheory.
Import Query.

Lemma dict_get_set {V} (k k0 : string) (v : V) (d : list (string * V)) :
  dict_get k (dict_set k0 v d) = if String.eqb k k0 then Some v else dict_get k d.
Proof.
  induction d as [|[k' v'] d IH]; simpl.
  - reflexivity.
  - destruct (String.eqb k0 k') eqn:E0; simpl.
    + apply String.eqb_eq in E0. subst k'.
      destruct (String.eqb k k0); reflexivity.
    + destruct (String.eqb k k') eqn:E1.
      * apply String.eqb_eq in E1. subst k'.
        rewrite String.eqb_sym, E0. reflexivity.
      * exact IH.
Qed.

(** [out[k] = v] keeps the keys where they are when [k] is one of them and
    puts [k] last when it is new. *)
Lemma dict_set_keys {V} (k : string) (v : V) (d : list (string * V)) :
  map fst (dict_set k v d) =
    match dict_get k d with
    | Some _ => map fst d
    | None => map fst d ++ [k]
    end.
Proof.
  induction d as [|[k' v'] d IH]; simpl.
  - reflexivity.
  - destruct (String.eqb k k'); simpl.
    + reflexivity.
    + rewrite IH. destruct (dict_get k d); reflexivity.
Qed.

Lemma dict_get_keys {V} (k : string) (d : list (string * V)) :
  existsb (String.eqb k) (map fst d) = bool_decide (is_Some (dict_get k d)).
Proof.
  induction d as [|[k' v'] d IH]; simpl.
  - reflexivity.
  - destruct (String.eqb k k'); simpl; [reflexivity | exact IH].
Qed.

Lemma split1_head_nonempty (w : string) : split1 "="%char w <> [].
Proof.
  destruct w as [|c w]; simpl; [discriminate|].
  destruct (Ascii.eqb c "="); [discriminate|].
  destruct (split1 "=" w); discriminate.
Qed.

(** One iteration of the loop, seen from one key. *)
Lemma parse_word_get (w : string) (out : list (string * qvalue))
    (acc : string -> list (option string)) :
  (forall k, dict_get k out = collected (acc k)) ->
  forall k,
    dict_get k (parse_word w out) =
      collected (acc k ++ match word_value k w with Some v => [v] | None => [] end).
Proof.
  intros Hinv k. unfold parse_word, word_value, word_pair.
  destruct (String.eqb w "") eqn:Ew.
  { apply String.eqb_eq in Ew. subst w. simpl. rewrite app_nil_r. apply Hinv. }
  destruct (split1 "=" w) as [|k0 rest] eqn:Es.
  { exfalso. exact (split1_head_nonempty w Es). }
  cbn [hd].
  destruct (String.eqb k0 "") eqn:Ek0.
  { rewrite app_nil_r. apply Hinv. }
  set (v := match rest with v1 :: _ => Some v1 | [] => None end).
  clearbody v.
  pose proof (Hinv k0) as Hk0.
  destruct (dict_get k0 out) as [old|] eqn:Eold.
  - rewrite dict_get_set.
    destruct (String.eqb k k0) eqn:Ek.
    + apply String.eqb_eq in Ek. subst k0.
      destruct (acc k) as [|x [|y l]]; simpl in Hk0; try discriminate;
        injection Hk0 as ->; reflexivity.
    + rewrite app_nil_r. apply Hinv.
  - rewrite dict_get_set.
    destruct (String.eqb k k0) eqn:Ek.
    + apply String.eqb_eq in Ek. subst k0.
      destruct (acc k) as [|x [|y l]]; simpl in Hk0; try discriminate. reflexivity.
    + rewrite app_nil_r. apply Hinv.
Qed.

Lemma fold_parse_get (ws : list string) : forall out acc,
  (forall k, dict_get k out = collected (acc k)) ->
  forall k,
    dict_get k (fold_left (fun out w => parse_word w out) ws out) =
      collected (acc k ++ omap (word_value k) ws).
Proof.
  induction ws as [|w ws IH]; intros out acc Hinv k.
  - simpl. rewrite app_nil_r. apply Hinv.
  - cbn [fold_left].
    rewrite (IH (parse_word w out)
                (fun k => acc k ++ match word_value k w with Some v => [v] | None => [] end)).
    + rewrite omap_cons, <- app_assoc. destruct (word_value k w); reflexivity.
    + apply parse_word_get. exact Hinv.
Qed.

(** One iteration of the loop, seen from the order of the keys. *)
Lemma parse_word_keys (w : string) (out : list (string * qvalue)) :
  map fst (parse_word w out) =
    match word_key w with
    | Some k => if existsb (String.eqb k) (map fst out) then map fst out
                else map fst out ++ [k]
    | None => map fst out
    end.
Proof.
  unfold parse_word, word_key, word_pair.
  destruct (String.eqb w "") eqn:Ew.
  { apply String.eqb_eq in Ew. subst w. reflexivity. }
  destruct (split1 "=" w) as [|k0 rest] eqn:Es.
  { exfalso. exact (split1_head_nonempty w Es). }
  cbn [hd]. destruct (String.eqb k0 "") eqn:Ek0; [reflexivity|].
  cbn [option_map fst]. rewrite dict_get_keys.
  destruct (dict_get k0 out) as [old|] eqn:Eold.
  - rewrite dict_set_keys, Eold. reflexivity.
  - rewrite dict_set_keys, Eold. reflexivity.
Qed.

Lemma first_seen_ext (s1 s2 ks : list string) :
  (forall k, existsb (String.eqb k) s1 = existsb (String.eqb k) s2) ->
  first_seen s1 ks = first_seen s2 ks.
Proof.
  revert s1 s2. induction ks as [|k ks IH]; intros s1 s2 H; simpl.
  - reflexivity.
  - rewrite (H k). destruct (existsb (String.eqb k) s2).
    + apply IH. exact H.
    + f_equal. apply IH. intros k'. simpl. rewrite (H k'). reflexivity.
Qed.

Lemma fold_parse_keys (ws : list string) : forall out,
  map fst (fold_left (fun out w => parse_word w out) ws out) =
    map fst out ++ first_seen (map fst out) (omap word_key ws).
Proof.
  induction ws as [|w ws IH]; intros out.
  - simpl. rewrite app_nil_r. reflexivity.
  - cbn [fold_left]. rewrite IH, parse_word_keys, omap_cons.
    destruct (word_key w) as [k|]; [|reflexivity].
    cbn [first_seen].
    destruct (existsb (String.eqb k) (map fst out)) eqn:E; [reflexivity|].
    rewrite <- app_assoc. cbn [app]. f_equal. f_equal.
    apply first_seen_ext. intros k'.
    rewrite existsb_app. simpl. rewrite orb_false_r. apply orb_comm.
Qed.

Lemma str_or_empty (s : string) : str_or s "" = s.
Proof. unfold str_or. destruct (String.eqb s "") eqn:E; [|reflexivity].
  apply String.eqb_eq in E. congruence. Qed.

(** What [parseQuery] returns, by the words of the query string. *)
Lemma parseQuery_by_words (query : string) :
  (forall k, dict_get k (parseQuery (Some query)) = collected (occurrences k query)) /\
  map fst (parseQuery (Some query)) = first_seen [] (query_keys query).
Proof.
  unfold parseQuery. cbn [default]. rewrite str_or_empty. split.
  - intros k. unfold id.
    rewrite (fold_parse_get (split "&" query) [] (fun _ => []) (fun _ => eq_refl) k).
    reflexivity.
  - exact (fold_parse_keys (split "&" query) []).
Qed.

(** *** Cutting a string that was put together *)

Lemma split_without c s : has_char c s = false -> split c s = [s].
Proof.
  induction s as [|a s IH]; cbn [has_char split]; [reflexivity|].
  intros H. apply orb_false_iff in H. destruct H as [Ha Hs].
  rewrite Ha, (IH Hs). reflexivity.
Qed.

Lemma split_app_cut c w s :
  has_char c w = false -> split c (w ++ String c s) = w :: split c s.
Proof.
  induction w as [|a w IH]; cbn [has_char String.append split].
  - intros _. rewrite Ascii.eqb_refl. reflexivity.
  - intros H. apply orb_false_iff in H. destruct H as [Ha Hw].
    rewrite Ha, (IH Hw). reflexivity.
Qed.

Lemma split_join c (w : string) (ws : list string) :
  Forall (fun w => has_char c w = false) (w :: ws) ->
  split c (join (String c "") (w :: ws)) = w :: ws.
Proof.
  revert w. induction ws as [|w' ws IH]; intros w H.
  - cbn [join String.concat]. apply split_without. exact (Forall_inv H).
  - change (join (String c "") (w :: w' :: ws))
      with (w ++ String c (join (String c "") (w' :: ws)))%string.
    rewrite (split_app_cut c w _ (Forall_inv H)), (IH w' (Forall_inv_tail H)).
    reflexivity.
Qed.

Lemma split1_without c s : has_char c s = false -> split1 c s = [s].
Proof.
  induction s as [|a s IH]; cbn [has_char split1]; [reflexivity|].
  intros H. apply orb_false_iff in H. destruct H as [Ha Hs].
  rewrite Ha, (IH Hs). reflexivity.
Qed.

Lemma split1_app_cut c k v :
  has_char c k = false -> split1 c (k ++ String c v) = [k; v].
Proof.
  induction k as [|a k IH]; cbn [has_char String.append split1].
  - intros _. rewrite Ascii.eqb_refl. reflexivity.
  - intros H. apply orb_false_iff in H. destruct H as [Ha Hk].
    rewrite Ha, (IH Hk). reflexivity.
Qed.

Lemma has_char_app c s t : has_char c (s ++ t) = has_char c s || has_char c t.
Proof.
  induction s as [|a s IH]; cbn [String.append has_char]; [reflexivity|].
  rewrite IH. apply orb_assoc.
Qed.

(** The word of a pair is read back as the pair. *)
Lemma word_pair_of_pair p : plain_pair p -> word_pair (pair_word p) = Some p.
Proof.
  destruct p as [k [v|]]; unfold plain_pair, pair_word, word_pair; cbn [fst snd];
    intros (Hk & Heq & _ & _).
  - rewrite (split1_app_cut _ k v Heq).
    destruct (String.eqb_spec k ""); [contradiction | reflexivity].
  - rewrite (split1_without _ k Heq).
    destruct (String.eqb_spec k ""); [contradiction | reflexivity].
Qed.

Lemma pair_word_without_amp p : plain_pair p -> has_char "&"%char (pair_word p) = false.
Proof.
  destruct p as [k [v|]]; unfold plain_pair, pair_word; cbn [fst snd];
    intros (_ & _ & Hk & Hv); [|exact Hk].
  rewrite has_char_app. cbn [has_char]. rewrite Hk, Hv. reflexivity.
Qed.

Lemma words_of_pairs (pairs : list (string * option string)) :
  Forall plain_pair pairs -> omap word_pair (map pair_word pairs) = pairs.
Proof.
  induction 1 as [|q l Hq _ IH]; [reflexivity|].
  cbn [map]. rewrite omap_cons, (word_pair_of_pair q Hq), IH. reflexivity.
Qed.

(** The words of the query string of a list of pairs are read back as the
    pairs. *)
Lemma words_of_query (pairs : list (string * option string)) :
  Forall plain_pair pairs ->
  omap word_pair (split "&"%char (query_of pairs)) = pairs.
Proof.
  intros H. unfold query_of. destruct pairs as [|p pairs]; [reflexivity|].
  cbn [map]. rewrite split_join.
  - exact (words_of_pairs (p :: pairs) H).
  - change (pair_word p :: map pair_word pairs) with (map pair_word (p :: pairs)).
    apply List.Forall_map. eapply List.Forall_impl; [|exact H].
    intros q Hq. apply pair_word_without_amp. exact Hq.
Qed.

Lemma omap_through {A B C} (f : A -> option B) (g : B -> option C) (l : list A) :
  omap (fun x => match f x with Some y => g y | None => None end) l = omap g (omap f l).
Proof.
  induction l as [|x l IH]; [reflexivity|].
  rewrite !omap_cons. destruct (f x) as [y|]; [|exact IH].
  rewrite omap_cons. destruct (g y); rewrite IH; reflexivity.
Qed.

Lemma occurrences_of_query k pairs :
  Forall plain_pair pairs -> occurrences k (query_of pairs) = values_of k pairs.
Proof.
  intros H. unfold occurrences, values_of.
  rewrite <- (words_of_query pairs H) at 2.
  rewrite <- omap_through.
  induction (split "&"%char (query_of pairs)) as [|w ws IH]; [reflexivity|].
  rewrite !omap_cons, IH. unfold word_value.
  destruct (word_pair w) as [[k' v]|]; reflexivity.
Qed.

Lemma query_keys_of_query pairs :
  Forall plain_pair pairs -> query_keys (query_of pairs) = map fst pairs.
Proof.
  intros H. unfold query_keys.
  rewrite <- (words_of_query pairs H) at 2.
  induction (split "&"%char (query_of pairs)) as [|w ws IH]; [reflexivity|].
  rewrite !omap_cons. unfold word_key at 1.
  destruct (word_pair w) as [p|]; cbn [option_map map]; rewrite IH; reflexivity.
Qed.

(** C9: for the query string written from a list of key-value pairs, with
    ["&"] between the pairs and ["="] between a key and its value, the
    mapping [parseQuery] returns has no entry for a key that no pair has;
    for a key of one pair it has the value of that pair, [None] when the
    pair has no ["="]; for a key of several pairs it has the list of
    all their values in the order of the pairs.  The keys stand in the
    order of their first occurrences. *)
Theorem parseQuery_spec (pairs : list (string * option string)) :
  Forall plain_pair pairs ->
  (forall k,
     dict_get k (parseQuery (Some (query_of pairs))) =
       match values_of k pairs with
       | [] => None
       | [v] => Some (QOne v)
       | vs => Some (QList vs)
       end) /\
  map fst (parseQuery (Some (query_of pairs))) = first_seen [] (map fst pairs).
Proof.
  intros H. destruct (parseQuery_by_words (query_of pairs)) as [Hget Hkeys]. split.
  - intros k. rewrite Hget, (occurrences_of_query k pairs H).
    destruct (values_of k pairs) as [|v [|v' vs]]; reflexivity.
  - rewrite Hkeys, (query_keys_of_query pairs H). reflexivity.
Qed.

(** The query string [a=1&b&a=2]: [a] maps to the list of its two values,
    [b] to [None], and [a] comes first. *)
Lemma parseQuery_spec_witness :
  query_of [("a", Some "1"); ("b", None); ("a", Some "2")] = "a=1&b&a=2" /\
  parseQuery (Some "a=1&b&a=2") =
    [("a", QList [Some "1"; Some "2"]); ("b", QOne None)] /\
  (forall k,
     dict_get k (parseQuery (Some "a=1&b&a=2")) =
       match values_of k [("a", Some "1"); ("b", None); ("a", Some "2")] with
       | [] => None
       | [v] => Some (QOne v)
       | vs => Some (QList vs)
       end) /\
  map fst (parseQuery (Some "a=1&b&a=2")) = ["a"; "b"].
Proof.
  split; [reflexivity|]. split; [reflexivity|].
  apply (parseQuery_spec [("a", Some "1"); ("b", None); ("a", Some "2")]).
  repeat constructor; discriminate.
Defined.

End QueryTheory.

(* ===================================================================== *)
(** ** Properties of handler nodes: [step_down]                           *)
(* ===================================================================== *)

Module StepTheory.
Import Handlers.

(** An attribute that [getattr] returns is one that [hasattr] finds. *)
Lemma getattr_hasattr h name a : getattr h name = Some a -> hasattr h name = Ok true.
Proof.
  unfold hasattr, getattr. destruct (String.eqb name "session").
  - intros ->. reflexivity.
  - intros ->. reflexivity.
Qed.

(** Where [hasattr] is false, [getattr] returns nothing. *)
Lemma hasattr_false h name : hasattr h name = Ok false -> getattr h name = None.
Proof.
  unfold hasattr, getattr. destruct (String.eqb name "session").
  - destruct (session h); discriminate.
  - destruct (dict_get name _); [discriminate | reflexivity].
Qed.

(** The segment [session]: without a session in the environment of the
    request the property raises [KeyError], which [hasattr] lets through;
    what [addHandler] registered under that name is never looked at. *)
Lemma step_down_session_missing st h :
  session h = None -> step_down st h "session" = Raise (KeyError "webpie.session").
Proof.
  intros H. unfold step_down, hasattr. cbn [String.eqb Ascii.eqb Bool.eqb].
  rewrite H. reflexivity.
Qed.

(** The segment [__class__] on a handler that is not strict: the class of
    the handler, which is callable, is returned as the web method. *)
Lemma step_down_class st h :
  _Strict h = false -> step_down st h "__class__" = Ok (Some (OCallable "__class__" None)).
Proof. intros H. unfold step_down, hasattr, getattr. cbn. rewrite H. reflexivity. Qed.

(** C4: in strict mode, for a callable attribute that carries the
    web-method tag and whose name is neither listed in [_MethodNames] nor
    registered, [step_down] does not return the callable: the test of the
    tag reads the unbound name [method] and raises [NameError]. *)
Theorem step_down_strict_tagged (st : store) (h : WPHandler) (name f : string) :
  _Strict h = true ->
  getattr h name = Some (OCallable f (Some _WebMethodSignature)) ->
  match _MethodNames h with
  | Some names => existsb (String.eqb name) names
  | None => false
  end = false ->
  dict_get name (_WebMethods h) = None ->
  step_down st h name = Raise (NameError "method").
Proof.
  intros Hstrict Hattr Hnames _. unfold step_down.
  rewrite (getattr_hasattr _ _ _ Hattr). cbn [bind].
  rewrite Hattr, Hstrict, Hnames. reflexivity.
Qed.

(** A strict handler whose class defines the web method [hello] with
    [@webmethod()]. *)
Lemma step_down_strict_tagged_witness :
  step_down []
    (WPHandler_init true None false
       [("hello", OCallable "hello" (Some _WebMethodSignature))] 0 None)
    "hello" = Raise (NameError "method").
Proof.
  apply (step_down_strict_tagged [] _ "hello" "hello"); reflexivity.
Defined.



End StepTheory.

(* ===================================================================== *)
(** ** Properties of the path resolver                                    *)
(* ===================================================================== *)

Module ResolverTheory.
Import Handlers.

Lemma same_but_Path_fields h h' :
  same_but_Path h h' ->
  _Strict h = _Strict h' /\ _MethodNames h = _MethodNames h' /\
  cls_callable h = cls_callable h' /\ cls_attrs h = cls_attrs h' /\
  App h = App h' /\ BeingDestroyed h = BeingDestroyed h' /\
  AppURL h = AppURL h' /\ _WebMethods h = _WebMethods h' /\
  inst_attrs h = inst_attrs h' /\ session h = session h'.
Proof.
  unfold same_but_Path, set_Path. intros H. injection H. intros. repeat split; assumption.
Qed.

Lemma stores_same_callable st st' o :
  stores_same_but_Path st st' -> callable st o = callable st' o.
Proof.
  intros H. destruct o as [|id| |]; try reflexivity. simpl.
  specialize (H id). destruct (st !! id) as [h|], (st' !! id) as [h'|]; try discriminate.
  - assert (Hs : same_but_Path h h')
      by (unfold same_but_Path; cbn [option_map] in H; congruence).
    apply same_but_Path_fields in Hs. tauto.
  - reflexivity.
Qed.

Lemma stores_same_isinstance st st' o :
  stores_same_but_Path st st' -> isinstance_WPHandler st o = isinstance_WPHandler st' o.
Proof.
  intros H. destruct o as [|id| |]; try reflexivity. simpl.
  specialize (H id). destruct (st !! id) as [h|], (st' !! id) as [h'|]; try discriminate;
    reflexivity.
Qed.

(** Under the name ["Path"], [step_down] finds a string or [None], which
    is no web method. *)
Lemma step_down_Path st h : step_down st h "Path" = Ok None.
Proof.
  unfold step_down, hasattr, getattr, instance_dict, init_dict, data_descriptors.
  cbn [String.eqb Ascii.eqb Bool.eqb app dict_get].
  destruct (Path h); reflexivity.
Qed.

Lemma getattr_same_but_Path h h' name :
  same_but_Path h h' -> name <> "Path" -> getattr h name = getattr h' name.
Proof.
  intros Hh Hne. apply same_but_Path_fields in Hh.
  destruct Hh as (E1 & E2 & E3 & E4 & E5 & E6 & E7 & E8 & E9 & E10).
  unfold getattr, instance_dict, init_dict, WPHandler_class, data_descriptors.
  rewrite <- E1, <- E2, <- E4, <- E5, <- E6, <- E7, <- E9, <- E10.
  cbn [app dict_get].
  destruct (String.eqb_spec name "Path") as [E|_]; [contradiction|]. reflexivity.
Qed.

Lemma hasattr_same_but_Path h h' name :
  same_but_Path h h' -> name <> "Path" -> hasattr h name = hasattr h' name.
Proof.
  intros Hh Hne. unfold hasattr.
  rewrite (getattr_same_but_Path h h' name Hh Hne).
  apply same_but_Path_fields in Hh.
  destruct Hh as (_ & _ & _ & _ & _ & _ & _ & _ & _ & ->). reflexivity.
Qed.

(** The value of [Path] does not bear on [step_down]. *)
Lemma step_down_Path_irrelevant st st' h h' name :
  stores_same_but_Path st st' -> same_but_Path h h' ->
  step_down st h name = step_down st' h' name.
Proof.
  intros Hst Hh.
  destruct (String.eqb_spec name "Path") as [->|Hne].
  { rewrite !step_down_Path. reflexivity. }
  unfold step_down.
  rewrite <- (getattr_same_but_Path h h' name Hh Hne).
  rewrite <- (hasattr_same_but_Path h h' name Hh Hne).
  apply same_but_Path_fields in Hh.
  destruct Hh as (E1 & E2 & E3 & E4 & E5 & E6 & E7 & E8 & E9 & E10).
  rewrite <- E1, <- E2, <- E8.
  destruct (hasattr h name) as [found|e]; cbn [bind]; [|reflexivity].
  match goal with
  | |- (let '(_, _) := ?p in _) = _ => destruct p as [attr allowed]
  end.
  rewrite (stores_same_callable st st' attr Hst), (stores_same_isinstance st st' attr Hst).
  reflexivity.
Qed.

Lemma stores_same_insert st st' a h' p :
  stores_same_but_Path st st' -> st' !! a = Some h' ->
  stores_same_but_Path st (<[a := set_Path p h']> st').
Proof.
  intros H Ha id. destruct (decide (a = id)) as [<-|Hne].
  - rewrite list_lookup_insert_eq by (eapply lookup_lt_Some; eassumption).
    rewrite (H a), Ha. reflexivity.
  - rewrite list_lookup_insert_ne by assumption. apply H.
Qed.

Lemma stores_same_refl st : stores_same_but_Path st st.
Proof. intros id. reflexivity. Qed.

Lemma find_web_method_handler D st id h path path_down :
  st !! id = Some h ->
  find_web_method D st (OHandler id) path path_down =
    let path := str_or path "/" in
    let h := set_Path (Some path) h in
    let st := <[id := h]> st in
    let here :=
      if cls_callable h then Resolved (Some (OHandler id)) (join "/" path_down)
      else match path_down with
           | [] => Redirect (ensure_slash path ++ D)
           | _ :: _ => Resolved None (join "/" path_down)
           end in
    match path_down with
    | name :: rest =>
        match step_down st h name with
        | Raise e => (st, Fault e)
        | Ok (Some attr) => find_web_method D st attr (ensure_slash path ++ name) rest
        | Ok None => (st, here)
        end
    | [] => (st, here)
    end.
Proof. intros E. destruct path_down; simpl; rewrite E; reflexivity. Qed.

(** A descent through handlers that ends, with no segment left, on a
    handler that is not callable raises the redirect to the accumulated
    path, a slash and the default method. *)
Lemma descent_redirects D st a segs b :
  descends st a segs b ->
  forall st' path hb,
    stores_same_but_Path st st' ->
    st !! b = Some hb -> cls_callable hb = false ->
    snd (find_web_method D st' (OHandler a) path segs) =
      Redirect (ensure_slash (walked path segs) ++ D).
Proof.
  induction 1 as [a h Ha | a h name c rest b Ha Hstep Hdesc IH];
    intros st' path hb Hst Hb Hcall.
  - pose proof (Hst a) as Hl. rewrite Ha in Hl.
    destruct (st' !! a) as [h'|] eqn:Ha'; [|discriminate].
    assert (Hs : same_but_Path h h')
      by (unfold same_but_Path; cbn [option_map] in Hl; congruence).
    apply same_but_Path_fields in Hs.
    rewrite (find_web_method_handler _ _ _ _ _ _ Ha'). cbn zeta.
    cbn [set_Path cls_callable].
    assert (cls_callable h' = false) as ->.
    { replace hb with h in Hcall by congruence. intuition congruence. }
    reflexivity.
  - pose proof (Hst a) as Hl. rewrite Ha in Hl.
    destruct (st' !! a) as [h'|] eqn:Ha'; [|discriminate].
    assert (Hs : same_but_Path h h')
      by (unfold same_but_Path; cbn [option_map] in Hl; congruence).
    rewrite (find_web_method_handler _ _ _ _ _ _ Ha'). cbn zeta.
    rewrite <- (step_down_Path_irrelevant st _ h (set_Path (Some (str_or path "/")) h') name).
    + rewrite Hstep. cbn [walked]. eapply IH; eauto.
      apply stores_same_insert; assumption.
    + apply stores_same_insert; assumption.
    + unfold same_but_Path in *. rewrite Hs. reflexivity.
Qed.

(** *** The accumulated path *)

Lemma endswith_app c a b : b <> "" -> endswith c (a ++ b) = endswith c b.
Proof.
  intros Hb. induction a as [|x a IH]; [reflexivity|].
  cbn [append endswith]. rewrite IH.
  destruct (a ++ b)%string eqn:E; [|reflexivity].
  destruct a; [simpl in E; congruence | discriminate].
Qed.

Lemma join_cons_cons sep x y l : join sep (x :: y :: l) = (x ++ sep ++ join sep (y :: l))%string.
Proof. reflexivity. Qed.

Lemma append_assoc (a b c : string) : ((a ++ b) ++ c = a ++ (b ++ c))%string.
Proof. induction a; simpl; congruence. Qed.

Lemma join_head_app sep (p x : string) l :
  join sep ((p ++ x)%string :: l) = (p ++ join sep (x :: l))%string.
Proof.
  destruct l as [|y l]; [reflexivity|].
  rewrite !join_cons_cons. apply append_assoc.
Qed.

Lemma endswith_join name rest :
  Forall proper_segment (name :: rest) -> endswith slash (join "/" (name :: rest)) = false.
Proof.
  revert name. induction rest as [|y rest IH]; intros name H.
  - inversion H as [|? ? [_ Hn] _]; subst. exact Hn.
  - inversion H as [|? ? _ Hrest]; subst. rewrite join_cons_cons.
    rewrite endswith_app.
    + rewrite endswith_app; [apply IH; exact Hrest|].
      inversion Hrest as [|? ? [Hy _] _]; subst.
      destruct rest; [exact Hy|]. rewrite join_cons_cons.
      destruct y; [congruence | discriminate].
    + discriminate.
Qed.

Lemma proper_nonempty_join name rest :
  proper_segment name -> join "/" (name :: rest) <> "".
Proof.
  intros [Hn _]. destruct rest; [exact Hn|]. rewrite join_cons_cons.
  destruct name; [congruence | discriminate].
Qed.

Lemma walked_join rest : forall p,
  p <> "" -> endswith slash p = false -> Forall proper_segment rest ->
  walked p rest = join "/" (p :: rest).
Proof.
  induction rest as [|name rest IH]; intros p Hp Hend Hall.
  - cbn [walked]. unfold str_or. destruct (String.eqb p "") eqn:E; [|reflexivity].
    apply String.eqb_eq in E. congruence.
  - inversion Hall as [|? ? [Hn Hne] Hrest]; subst. cbn [walked].
    assert (Hs : str_or p "/" = p).
    { unfold str_or. destruct (String.eqb p "") eqn:E; [|reflexivity].
      apply String.eqb_eq in E. congruence. }
    rewrite Hs. unfold ensure_slash. rewrite Hend.
    rewrite IH.
    + rewrite append_assoc, join_head_app, join_head_app, join_cons_cons. reflexivity.
    + destruct p; [congruence | discriminate].
    + rewrite endswith_app by exact Hn. exact Hne.
    + exact Hrest.
Qed.

(** From the root, the accumulated path is a slash and the segments
    joined by slashes. *)
Lemma walked_from_root segs :
  Forall proper_segment segs ->
  ensure_slash (walked "" segs) =
    match segs with
    | [] => "/"
    | _ :: _ => ("/" ++ join "/" segs ++ "/")%string
    end.
Proof.
  intros H. destruct segs as [|name rest]; [reflexivity|].
  inversion H as [|? ? [Hn Hne] Hrest]; subst. cbn [walked].
  change (ensure_slash (str_or "" "/") ++ name)%string with ("/" ++ name)%string.
  rewrite walked_join.
  - rewrite (join_head_app "/" "/" name rest).
    unfold ensure_slash.
    rewrite (endswith_app slash "/" (join "/" (name :: rest))).
    + rewrite (endswith_join name rest H). apply append_assoc.
    + apply proper_nonempty_join. split; assumption.
  - discriminate.
  - rewrite (endswith_app slash "/" name) by exact Hn. exact Hne.
  - exact Hrest.
Qed.

End ResolverTheory.

(* ===================================================================== *)
(** ** Properties of the Application Coordinator                          *)
(* ===================================================================== *)

Module CoordinatorTheory.
Import Handlers Coordinator ResolverTheory.

(** *** Path segments *)

Lemma split_nonempty c s : split c s <> [].
Proof.
  destruct s as [|a s]; simpl; [discriminate|].
  destruct (Ascii.eqb a c); [discriminate|]. destruct (split c s); discriminate.
Qed.

(** A slash at the end of a path adds one empty segment at the end. *)
Lemma split_app_sep c s : split c (s ++ String c "") = split c s ++ [""].
Proof.
  induction s as [|a s IH]; simpl.
  - rewrite Ascii.eqb_refl. reflexivity.
  - destruct (Ascii.eqb a c); rewrite IH; [reflexivity|].
    destruct (split c s) as [|w ws] eqn:E; [exfalso; exact (split_nonempty c s E)|].
    reflexivity.
Qed.

Lemma split_no_sep c s : Forall (fun w => endswith c w = false) (split c s).
Proof.
  induction s as [|a s IH]; simpl.
  - repeat constructor.
  - destruct (Ascii.eqb a c) eqn:E.
    + constructor; [reflexivity | exact IH].
    + destruct (split c s) as [|w ws]; [repeat constructor; simpl; exact E|].
      inversion IH as [|? ? Hw Hws]; subst. constructor; [|exact Hws].
      simpl. destruct w; [exact E | exact Hw].
Qed.

Lemma list_remove_length l :
  existsb (String.eqb "") l = true -> S (length (list_remove "" l)) = length l.
Proof.
  induction l as [|y l IH]; cbn [existsb list_remove length]; [discriminate|].
  rewrite (String.eqb_sym "" y). destruct (String.eqb y ""); cbn [orb length].
  - reflexivity.
  - intros H. rewrite IH by exact H. reflexivity.
Qed.

Lemma list_remove_filter l :
  List.filter nonempty (list_remove "" l) = List.filter nonempty l.
Proof.
  induction l as [|y l IH]; cbn [list_remove List.filter]; [reflexivity|].
  unfold nonempty at 2. destruct (String.eqb y "") eqn:E; cbn [negb]; [reflexivity|].
  cbn [List.filter]. unfold nonempty at 1. rewrite E. cbn [negb]. rewrite IH. reflexivity.
Qed.

Lemma filter_no_empty l :
  existsb (String.eqb "") l = false -> List.filter nonempty l = l.
Proof.
  induction l as [|y l IH]; cbn [existsb List.filter]; [reflexivity|].
  unfold nonempty at 1. rewrite (String.eqb_sym "" y).
  destruct (String.eqb y ""); cbn [orb negb]; [discriminate|].
  intros H. rewrite IH by exact H. reflexivity.
Qed.

(** The loop of [wsgi_call] ends within its fuel and leaves the segments
    that are not empty, in their order. *)
Lemma remove_empty_filter fuel : forall l,
  length l <= fuel -> remove_empty fuel l = List.filter nonempty l.
Proof.
  induction fuel as [|fuel IH]; intros l Hlen.
  - destruct l; [reflexivity | simpl in Hlen; lia].
  - cbn [remove_empty]. destruct (existsb (String.eqb "") l) eqn:E.
    + rewrite IH; [apply list_remove_filter|].
      pose proof (list_remove_length l E). lia.
    + symmetry. apply filter_no_empty. exact E.
Qed.

Lemma path_segments_filter path :
  path_segments path = List.filter nonempty (split slash path).
Proof. unfold path_segments. apply remove_empty_filter. lia. Qed.

Lemma path_segments_trailing_slash path :
  path_segments (path ++ "/") = path_segments path.
Proof.
  rewrite !path_segments_filter.
  change "/" with (String slash "").
  rewrite split_app_sep, List.filter_app. simpl. apply app_nil_r.
Qed.

Lemma path_segments_proper path : Forall proper_segment (path_segments path).
Proof.
  rewrite path_segments_filter.
  pose proof (split_no_sep slash path) as H.
  induction H as [|w ws Hw Hws IH]; simpl; [constructor|].
  unfold nonempty at 1. destruct (String.eqb w "") eqn:E; simpl; [exact IH|].
  constructor; [|exact IH]. split; [|exact Hw].
  intros ->. discriminate.
Qed.

(** C7: two paths that differ by a slash at the end only are resolved
    alike: [wsgi_call] hands the same segments to the resolver, which then
    gives the same method and relpath, redirect or miss (and leaves the
    same store). *)
Theorem trailing_slash_same_resolution (app : WPApp) (st : store) (root_handler : pyobj)
    (environ : list (string * string)) (path : string) :
  path_segments (path ++ "/") = path_segments path /\
  wsgi_resolve app st root_handler (Query.dict_set "PATH_INFO" (path ++ "/")%string environ) =
  wsgi_resolve app st root_handler (Query.dict_set "PATH_INFO" path environ).
Proof.
  split; [apply path_segments_trailing_slash|].
  unfold wsgi_resolve, environ_get.
  rewrite !QueryTheory.dict_get_set, String.eqb_refl. cbn [default]. unfold id.
  rewrite path_segments_trailing_slash. reflexivity.
Qed.

(** C8: when the descent along the segments of the path ends on a handler
    that is not callable, with no segment left, the resolver raises the
    redirect to the accumulated path (a slash and the segments joined by
    slashes), one slash, and the default method name. *)
Theorem redirect_to_default_method (app : WPApp) (st : store) (root : nat)
    (environ : list (string * string)) (path : string) (b : nat) (hb : WPHandler) :
  dict_get "PATH_INFO" environ = Some path ->
  descends st root (path_segments path) b ->
  st !! b = Some hb -> cls_callable hb = false ->
  snd (wsgi_resolve app st (OHandler root) environ) =
    Redirect (match path_segments path with
              | [] => "/"
              | segs => "/" ++ join "/" segs ++ "/"
              end ++ DefaultMethod app).
Proof.
  intros Hpath Hdesc Hb Hcall. unfold wsgi_resolve, environ_get. rewrite Hpath.
  cbn [default]. unfold id.
  rewrite (descent_redirects _ st root _ b Hdesc st "" hb (stores_same_refl st) Hb Hcall).
  rewrite (walked_from_root _ (path_segments_proper path)).
  destruct (path_segments path); reflexivity.
Qed.

(** The example of the specification: the path ["/a/"] where [a] is a
    handler that is not callable. *)
Lemma redirect_to_default_method_witness :
  snd (wsgi_resolve (WPApp_init None (Some "") "index" [])
         [ mkHandler false None false [] None (Some 0) false None []
                     [("a", OHandler 1)] None;
           WPHandler_init false None false [] 0 None ]
         (OHandler 0) [("PATH_INFO", "/a/")])
    = Redirect "/a/index".
Proof.
  apply (redirect_to_default_method (WPApp_init None (Some "") "index" [])
           [ mkHandler false None false [] None (Some 0) false None []
                       [("a", OHandler 1)] None;
             WPHandler_init false None false [] 0 None ]
           0 [("PATH_INFO", "/a/")] "/a/" 1 (WPHandler_init false None false [] 0 None)).
  - reflexivity.
  - eapply descends_cons; [reflexivity | reflexivity |].
    eapply descends_nil. reflexivity.
  - reflexivity.
  - reflexivity.
Defined.

(** *** One-time initialisation *)

Lemma dict_set_keeps (k k' v : string) (d : list (string * string)) :
  is_Some (dict_get k d) -> is_Some (dict_get k (Query.dict_set k' v d)).
Proof.
  intros H. rewrite QueryTheory.dict_get_set.
  destruct (String.eqb k k'); [eexists; reflexivity | exact H].
Qed.

Lemma dict_update_keeps (k : string) (e : list (string * string)) : forall d,
  is_Some (dict_get k d) -> is_Some (dict_get k (dict_update d e)).
Proof.
  unfold dict_update. induction e as [|[k' v] e IH]; intros d H; [exact H|].
  cbn [fold_left]. apply IH. apply dict_set_keeps. exact H.
Qed.

(** The environment from which [Request(environ)] is built still has the
    query string of the incoming one. *)
Lemma query_string_kept (app : WPApp) (environ : list (string * string)) (path path' : string) :
  is_Some (dict_get "QUERY_STRING" environ) ->
  is_Some (dict_get "QUERY_STRING"
             (Query.dict_set "PATH_INFO" path'
                (dict_update
                   match dict_get "WebPie.original_path" environ with
                   | Some _ => environ
                   | None => Query.dict_set "WebPie.original_path" path environ
                   end (Environ app)))).
Proof.
  intros H. apply dict_set_keeps, dict_update_keeps.
  destruct (dict_get "WebPie.original_path" environ); [exact H|].
  apply dict_set_keeps. exact H.
Qed.

(** C1, what the code does: the request that initialises the application
    calls [init] twice, once before and once after it sets [Initialized]
    (lines 666 and 669). *)
Theorem first_request_calls_init_twice (proc : process) (app : WPApp)
    (environ : list (string * string)) (path q : string) :
  Initialized app = false ->
  convertPath app (environ_get environ "PATH_INFO" "") = Some path ->
  dict_get "QUERY_STRING" environ = Some q ->
  init_calls (snd (fst (WPApp_call proc app environ))) = 2 /\
  Initialized (fst (fst (WPApp_call proc app environ))) = true.
Proof.
  intros Hinit Hconv Hq. unfold WPApp_call. rewrite Hconv.
  destruct (query_string_kept app environ (environ_get environ "PATH_INFO" "") path
              (ex_intro _ q Hq)) as [q' ->].
  rewrite Hinit. split; reflexivity.
Qed.

(** The first request to a fresh application. *)
Lemma first_request_calls_init_twice_witness :
  init_calls (snd (fst (WPApp_call (mkProcess None "app.py" (fun _ => ""))
                          (WPApp_init None (Some "") "index" [])
                          [("PATH_INFO", "/"); ("QUERY_STRING", "")]))) = 2 /\
  Initialized (fst (fst (WPApp_call (mkProcess None "app.py" (fun _ => ""))
                          (WPApp_init None (Some "") "index" [])
                          [("PATH_INFO", "/"); ("QUERY_STRING", "")]))) = true.
Proof.
  apply (first_request_calls_init_twice (mkProcess None "app.py" (fun _ => ""))
           (WPApp_init None (Some "") "index" [])
           [("PATH_INFO", "/"); ("QUERY_STRING", "")] "/" ""); reflexivity.
Defined.

(** Once [Initialized] is set, a request leaves the application as it is
    and calls neither [init] nor the script-home resolution. *)
Lemma initialized_request_skips_init (proc : process) (app : WPApp)
    (environ : list (string * string)) :
  Initialized app = true -> fst (WPApp_call proc app environ) = (app, []).
Proof.
  intros Hinit. unfold WPApp_call.
  destruct (convertPath app _); [|reflexivity].
  destruct (dict_get "QUERY_STRING" _); [|reflexivity].
  rewrite Hinit. reflexivity.
Qed.

Lemma initialized_serve_skips_init (proc : process) (requests : list (list (string * string))) :
  forall app, Initialized app = true -> serve proc app requests = (app, []).
Proof.
  induction requests as [|environ rest IH]; intros app Hinit; [reflexivity|].
  cbn [serve].
  pose proof (initialized_request_skips_init proc app environ Hinit) as H.
  destruct (WPApp_call proc app environ) as [[app1 ev] e]. cbn [fst] in H.
  injection H as -> ->. rewrite (IH app Hinit). reflexivity.
Qed.

(** A request to an application that is not initialised either leaves it
    so, with no call of [init], or initialises it with two calls. *)
Lemma fresh_request_cases (proc : process) (app : WPApp) (environ : list (string * string)) :
  Initialized app = false ->
  fst (WPApp_call proc app environ) = (app, []) \/
  (Initialized (fst (fst (WPApp_call proc app environ))) = true /\
   init_calls (snd (fst (WPApp_call proc app environ))) = 2).
Proof.
  intros Hinit. unfold WPApp_call.
  destruct (convertPath app _); [|left; reflexivity].
  destruct (dict_get "QUERY_STRING" _); [|left; reflexivity].
  rewrite Hinit. right. split; reflexivity.
Qed.

(** Over any sequence of requests to a fresh application, [init] is called
    twice or not at all. *)
Lemma init_called_twice_or_never (proc : process) (requests : list (list (string * string))) :
  forall app, Initialized app = false ->
  init_calls (snd (serve proc app requests)) = 0 \/
  init_calls (snd (serve proc app requests)) = 2.
Proof.
  induction requests as [|environ rest IH]; intros app Hinit; [left; reflexivity|].
  cbn [serve].
  destruct (fresh_request_cases proc app environ Hinit) as [H | [Hi Hc]];
    destruct (WPApp_call proc app environ) as [[app1 ev] e]; cbn [fst snd] in *.
  - injection H as -> ->. specialize (IH app Hinit).
    destruct (serve proc app rest) as [app2 evs]. exact IH.
  - rewrite (initialized_serve_skips_init proc rest app1 Hi). cbn [snd].
    right. rewrite app_nil_r. exact Hc.
Qed.

End CoordinatorTheory.

(* ===================================================================== *)
(** ** Properties of the teardown: [_destroy]                             *)
(* ===================================================================== *)

Module DestroyTheory.
Import Handlers.

(** C3, counterexample: a handler held by two handlers is torn down
    twice, because the mark is cleared when a teardown ends. *)
Lemma shared_handler_torn_down_twice :
  exists st' tr,
    _destroy 4 shared_store 0 = Some (st', tr) /\
    tr = [Teardown 0; Hook 1; Teardown 1; Hook 3; Teardown 3;
          Hook 2; Teardown 2; Hook 3; Teardown 3] /\
    teardowns 3 tr = 2.
Proof. eexists. eexists. split; [reflexivity|]. split; reflexivity. Qed.

(** *** Counting teardowns *)

Lemma teardowns_app i tr1 tr2 : teardowns i (tr1 ++ tr2) = teardowns i tr1 + teardowns i tr2.
Proof. unfold teardowns. rewrite List.filter_app, length_app. reflexivity. Qed.

Lemma teardowns_hook i c tr : teardowns i (Hook c :: tr) = teardowns i tr.
Proof. reflexivity. Qed.

Lemma teardowns_here a tr : teardowns a (Teardown a :: tr) = S (teardowns a tr).
Proof. unfold teardowns. cbn [List.filter is_teardown]. rewrite Nat.eqb_refl. reflexivity. Qed.

Lemma teardowns_other i a tr : a <> i -> teardowns i (Teardown a :: tr) = teardowns i tr.
Proof.
  intros H. unfold teardowns. cbn [List.filter is_teardown].
  destruct (Nat.eqb a i) eqn:E; [|reflexivity]. apply Nat.eqb_eq in E. contradiction.
Qed.

(** *** Marks *)

Lemma flags_count st st' :
  (forall i, flag st' i = flag st i) -> unmarked_count st' = unmarked_count st.
Proof.
  intros H. unfold unmarked_count. f_equal. f_equal.
  apply list_eq. intros i. rewrite !list_lookup_fmap. apply H.
Qed.

Lemma count_set_true (l : list bool) : forall a,
  l !! a = Some false ->
  S (length (List.filter negb (<[a := true]> l))) = length (List.filter negb l).
Proof.
  induction l as [|x l IH]; intros a H; [discriminate|].
  destruct a as [|a].
  - injection H as ->. reflexivity.
  - specialize (IH a H). simpl. destruct x; simpl; rewrite <- IH; reflexivity.
Qed.

(** The store in which the guarded part of [_destroy] runs its loop. *)
Lemma flag_marked_store st a h i :
  st !! a = Some h ->
  flag (alter (set_BeingDestroyed true) a (<[a := set_App None h]> st)) i =
    if decide (a = i) then Some true else flag st i.
Proof.
  intros Ha. unfold flag. destruct (decide (a = i)) as [<-|Hne].
  - rewrite list_lookup_alter_eq, list_lookup_insert_eq
      by (eapply lookup_lt_Some; eassumption).
    reflexivity.
  - rewrite list_lookup_alter_ne, list_lookup_insert_ne by assumption. reflexivity.
Qed.

Lemma attrs_marked_store st a h :
  st !! a = Some h ->
  same_attrs st (alter (set_BeingDestroyed true) a (<[a := set_App None h]> st)).
Proof.
  intros Ha i. destruct (decide (a = i)) as [<-|Hne].
  - rewrite list_lookup_alter_eq, list_lookup_insert_eq
      by (eapply lookup_lt_Some; eassumption).
    rewrite Ha. reflexivity.
  - rewrite list_lookup_alter_ne, list_lookup_insert_ne by assumption. reflexivity.
Qed.

Lemma count_marked_store st a h :
  st !! a = Some h -> BeingDestroyed h = false ->
  S (unmarked_count (alter (set_BeingDestroyed true) a (<[a := set_App None h]> st)))
    = unmarked_count st.
Proof.
  intros Ha Hb. unfold unmarked_count.
  rewrite <- (count_set_true (BeingDestroyed <$> st) a).
  - f_equal. f_equal. f_equal. apply list_eq. intros i.
    rewrite list_lookup_fmap.
    change (BeingDestroyed <$> ?l !! i) with (flag l i).
    rewrite (flag_marked_store st a h i Ha).
    destruct (decide (a = i)) as [<-|Hne].
    + rewrite list_lookup_insert_eq; [reflexivity|].
      rewrite length_fmap. eapply lookup_lt_Some; eassumption.
    + rewrite list_lookup_insert_ne by assumption. rewrite list_lookup_fmap. reflexivity.
  - rewrite list_lookup_fmap, Ha. cbn. rewrite Hb. reflexivity.
Qed.

Lemma same_attrs_trans st1 st2 st3 :
  same_attrs st1 st2 -> same_attrs st2 st3 -> same_attrs st1 st3.
Proof. intros H1 H2 i. rewrite (H1 i). apply H2. Qed.

Lemma same_attrs_sym st1 st2 : same_attrs st1 st2 -> same_attrs st2 st1.
Proof. intros H i. symmetry. apply H. Qed.

Lemma same_attrs_alter st f a :
  (forall h, inst_attrs (f h) = inst_attrs h) -> same_attrs st (alter f a st).
Proof.
  intros Hf i. destruct (decide (a = i)) as [<-|Hne].
  - rewrite list_lookup_alter_eq. destruct (st !! a); cbn; [rewrite Hf|]; reflexivity.
  - rewrite list_lookup_alter_ne by assumption. reflexivity.
Qed.

(** *** Reachability *)

Lemma reach_transfer st st' (blocked blocked' : nat -> Prop) a b :
  same_attrs st st' -> (forall i, blocked' i -> blocked i) ->
  reach st blocked a b -> reach st' blocked' a b.
Proof.
  intros Hattrs Hblocked H.
  induction H as [a h Ha Hfree | a h k c b Ha Hfree Hin _ IH].
  - pose proof (Hattrs a) as E. rewrite Ha in E.
    destruct (st' !! a) as [h'|] eqn:Ha'; [|discriminate].
    eapply reach_here; eauto.
  - pose proof (Hattrs a) as E. rewrite Ha in E.
    destruct (st' !! a) as [h'|] eqn:Ha'; [|discriminate].
    cbn in E. injection E as E.
    eapply reach_attr; eauto. rewrite <- E. exact Hin.
Qed.

(** A path from [a] either avoids [x] or has a last visit of [x]. *)
Lemma reach_last_visit st (blocked : nat -> Prop) a b x :
  reach st blocked a b ->
  reach st (fun i => blocked i \/ i = x) a b \/
  (exists hx, st !! x = Some hx /\ ~ blocked x /\
     (b = x \/
      exists k c, In (k, OHandler c) (inst_attrs hx) /\
                  reach st (fun i => blocked i \/ i = x) c b)).
Proof.
  intros H.
  induction H as [a h Ha Hfree | a h k c b Ha Hfree Hin _ IH].
  - destruct (decide (a = x)) as [->|Hne].
    + right. exists h. repeat split; auto.
    + left. eapply reach_here; eauto. intros [Hb|Hb]; contradiction.
  - destruct IH as [IH|IH]; [|right; exact IH].
    destruct (decide (a = x)) as [->|Hne].
    + right. exists h. repeat split; auto. right. exists k, c. split; assumption.
    + left. eapply reach_attr; eauto. intros [Hb|Hb]; contradiction.
Qed.

Lemma reach_from_unmarked st (blocked : nat -> Prop) a b h :
  st !! a = Some h ->
  reach st blocked a b ->
  b = a \/
  exists k c, In (k, OHandler c) (inst_attrs h) /\
              reach st (fun i => blocked i \/ i = a) c b.
Proof.
  intros Ha H. destruct (reach_last_visit st blocked a b a H) as [H'|H'].
  - exfalso. inversion H' as [? ? _ Hfree | ? ? ? ? ? _ Hfree _ _]; subst;
      apply Hfree; right; reflexivity.
  - destruct H' as (hx & Hx & _ & Hcases). rewrite Ha in Hx. injection Hx as <-.
    exact Hcases.
Qed.

(** *** Termination and coverage *)

Lemma destroy_loop_spec fuel (entries : list (string * pyobj)) :
  destroy_spec fuel ->
  forall st,
    unmarked_count st < fuel ->
    exists st' tr,
      destroy_loop (_destroy fuel) entries st = Some (st', tr) /\
      same_attrs st st' /\
      (forall i, flag st' i = flag st i) /\
      (forall i, is_marked st i -> teardowns i tr = 0) /\
      (forall k c b, In (k, OHandler c) entries ->
                     reach st (is_marked st) c b -> 1 <= teardowns b tr) /\
      (forall b, 1 <= teardowns b tr ->
                 exists k c, In (k, OHandler c) entries /\ reach st (is_marked st) c b).
Proof.
  intros Hrec. induction entries as [|[k o] rest IH]; intros st Hfuel.
  - exists st, []. split; [reflexivity|]. split; [intros i; reflexivity|].
    split; [intros i; reflexivity|]. split; [intros i _; reflexivity|].
    split; [intros ? ? ? []|]. intros b Hb. cbn in Hb. lia.
  - assert (Hskip :
      (forall k' c b, (k', OHandler c) = (k, o) -> ~ reach st (is_marked st) c b) ->
      exists st' tr,
        destroy_loop (_destroy fuel) rest st = Some (st', tr) /\
        same_attrs st st' /\
        (forall i, flag st' i = flag st i) /\
        (forall i, is_marked st i -> teardowns i tr = 0) /\
        (forall k' c b, In (k', OHandler c) ((k, o) :: rest) ->
                        reach st (is_marked st) c b -> 1 <= teardowns b tr) /\
        (forall b, 1 <= teardowns b tr ->
                   exists k' c, In (k', OHandler c) ((k, o) :: rest) /\
                                reach st (is_marked st) c b)).
    { intros Hno. destruct (IH st Hfuel) as (st' & tr & E & Ha & Hf & Hg & Hc & Hs).
      exists st', tr. split; [exact E|]. split; [exact Ha|]. split; [exact Hf|].
      split; [exact Hg|]. split.
      - intros k' c b [Hin|Hin] Hr; [|eauto]. exfalso. symmetry in Hin. eapply Hno; eauto.
      - intros b Hb. destruct (Hs b Hb) as (k' & c & Hin & Hr).
        exists k', c. split; [right; exact Hin | exact Hr]. }
    cbn [destroy_loop].
    destruct o as [|c| |]; cbn [isinstance_WPHandler];
      try (apply Hskip; intros ? ? ? [=]).
    destruct (st !! c) as [hc|] eqn:Hc.
    + rewrite bool_decide_eq_true_2 by eauto.
      destruct (Hrec st c Hfuel) as (st1 & tr1 & E1 & Ha1 & Hf1 & Hg1 & Hc1 & Hs1).
      rewrite E1.
      assert (Hfuel1 : unmarked_count st1 < fuel) by (rewrite (flags_count st st1 Hf1); exact Hfuel).
      destruct (IH st1 Hfuel1) as (st2 & tr2 & E2 & Ha2 & Hf2 & Hg2 & Hc2 & Hs2).
      rewrite E2. exists st2, (Hook c :: tr1 ++ tr2). split; [reflexivity|].
      assert (Hmarks : forall i, is_marked st1 i <-> is_marked st i).
      { intros i. unfold is_marked. rewrite Hf1. reflexivity. }
      split; [|split; [|split; [|split]]].
      * eapply same_attrs_trans; eauto.
      * intros i. rewrite Hf2. apply Hf1.
      * intros i Hi. rewrite teardowns_hook, teardowns_app, (Hg1 i Hi).
        rewrite (Hg2 i); [reflexivity|]. apply Hmarks. exact Hi.
      * intros k' c' b Hin Hr. rewrite teardowns_hook, teardowns_app.
        destruct Hin as [Hin|Hin].
        -- injection Hin as _ <-. pose proof (Hc1 b Hr). lia.
        -- assert (1 <= teardowns b tr2); [|lia].
           eapply Hc2; [exact Hin|].
           apply (reach_transfer st st1 (is_marked st) (is_marked st1));
             [exact Ha1 | intros i; apply Hmarks | exact Hr].
      * intros b Hb. rewrite teardowns_hook, teardowns_app in Hb.
        destruct (Nat.le_gt_cases 1 (teardowns b tr1)) as [H1|H1].
        -- exists k, c. split; [left; reflexivity | exact (Hs1 b H1)].
        -- destruct (Hs2 b ltac:(lia)) as (k' & c' & Hin & Hr).
           exists k', c'. split; [right; exact Hin|].
           apply (reach_transfer st1 st (is_marked st1) (is_marked st));
             [apply same_attrs_sym; exact Ha1 | intros i; apply Hmarks | exact Hr].
    + rewrite bool_decide_eq_false_2 by (intros [? ?]; discriminate).
      apply Hskip. intros k' c' b [= _ <-] Hr.
      inversion Hr; subst; congruence.
Qed.

Lemma destroy_meets_spec fuel : destroy_spec fuel.
Proof.
  induction fuel as [|fuel IH]; intros st a Hfuel; [lia|].
  cbn [_destroy].
  destruct (st !! a) as [h|] eqn:Ha.
  2:{ exists st, []. split; [reflexivity|]. split; [intros i; reflexivity|].
      split; [reflexivity|]. split; [reflexivity|]. split.
      - intros b Hr. inversion Hr; subst; congruence.
      - intros b Hb. cbn in Hb. lia. }
  assert (Hlt : a < length st) by (eapply lookup_lt_Some; eassumption).
  destruct (BeingDestroyed h) eqn:Hb.
  { (* the mark is set: only [App] is cleared *)
    exists (<[a := set_App None h]> st), []. split; [reflexivity|].
    assert (Hflag : forall i, flag (<[a := set_App None h]> st) i = flag st i).
    { intros i. unfold flag. destruct (decide (a = i)) as [<-|Hne].
      - rewrite list_lookup_insert_eq by exact Hlt. rewrite Ha. reflexivity.
      - rewrite list_lookup_insert_ne by assumption. reflexivity. }
    split; [|split; [exact Hflag|split; [reflexivity|split]]].
    - intros i. destruct (decide (a = i)) as [<-|Hne].
      + rewrite list_lookup_insert_eq by exact Hlt. rewrite Ha. reflexivity.
      + rewrite list_lookup_insert_ne by assumption. reflexivity.
    - intros b Hr. exfalso.
      assert (Hm : is_marked st a) by (unfold is_marked, flag; rewrite Ha; cbn; congruence).
      inversion Hr; subst; contradiction.
    - intros b Htd. cbn in Htd. lia. }
  (* the guarded part *)
  set (st2 := alter (set_BeingDestroyed true) a (<[a := set_App None h]> st)).
  pose proof (count_marked_store st a h Ha Hb) as Hcount. fold st2 in Hcount.
  assert (Hfuel2 : unmarked_count st2 < fuel) by lia.
  destruct (destroy_loop_spec fuel (inst_attrs h) IH st2 Hfuel2)
    as (st3 & tr & E & Ha3 & Hf3 & Hg3 & Hc3 & Hs3).
  rewrite E. eexists. eexists. split; [reflexivity|].
  assert (Hflag2 : forall i, flag st2 i = if decide (a = i) then Some true else flag st i).
  { intros i. apply flag_marked_store. exact Ha. }
  assert (Hunmarked : ~ is_marked st a).
  { unfold is_marked, flag. rewrite Ha. cbn. congruence. }
  split; [|split; [|split; [|split]]].
  - eapply same_attrs_trans; [apply attrs_marked_store; exact Ha|].
    eapply same_attrs_trans; [exact Ha3|]. apply same_attrs_alter. reflexivity.
  - intros i. unfold flag at 1. destruct (decide (a = i)) as [<-|Hne].
    + rewrite list_lookup_alter_eq.
      pose proof (Hf3 a) as Hfa. rewrite Hflag2 in Hfa.
      destruct (decide (a = a)); [|congruence].
      unfold flag in Hfa. destruct (st3 !! a) as [h3|]; [|discriminate].
      unfold flag. rewrite Ha. cbn. rewrite Hb. reflexivity.
    + rewrite list_lookup_alter_ne by assumption.
      change (BeingDestroyed <$> st3 !! i) with (flag st3 i).
      rewrite Hf3, Hflag2. destruct (decide (a = i)); [contradiction|reflexivity].
  - intros i Hi. rewrite teardowns_other by (intros ->; contradiction).
    apply Hg3. unfold is_marked. rewrite Hflag2.
    destruct (decide (a = i)); [reflexivity | exact Hi].
  - intros b Hr.
    destruct (reach_from_unmarked st (is_marked st) a b h Ha Hr) as [-> | (k & c & Hin & Hr')].
    + rewrite teardowns_here. lia.
    + assert (1 <= teardowns b tr).
      { eapply Hc3; eauto. eapply reach_transfer; [| |exact Hr'].
        - apply attrs_marked_store. exact Ha.
        - intros i. unfold is_marked. rewrite Hflag2.
          destruct (decide (a = i)) as [<-|Hne]; [right; reflexivity | left; assumption]. }
      destruct (decide (a = b)) as [<-|Hne].
      * rewrite teardowns_here. lia.
      * rewrite teardowns_other by assumption. assumption.
  - intros b Htd. destruct (decide (a = b)) as [<-|Hne].
    { eapply reach_here; eassumption. }
    rewrite teardowns_other in Htd by assumption.
    destruct (Hs3 b Htd) as (k & c & Hin & Hr).
    eapply reach_attr; [exact Ha | exact Hunmarked | exact Hin |].
    eapply reach_transfer; [| |exact Hr].
    + apply same_attrs_sym, attrs_marked_store. exact Ha.
    + intros i Hi. unfold is_marked. rewrite Hflag2.
      destruct (decide (a = i)); [reflexivity | exact Hi].
Qed.

(** C3, as the code has it: with fuel beyond the number of handlers,
    [_destroy] returns (the recursion ends, also on cycles and on shared
    handlers); it leaves every mark as it found it; it does not tear down
    a handler whose mark is set, which is what stops a cycle; and the
    handlers it tears down, each at least once, are exactly those that
    are reachable along instance attributes (entries of [__dict__]): a
    handler that is held as an attribute of a class only is not torn
    down.  It does not promise at most once. *)
Theorem destroy_terminates_and_covers (st : store) (a : nat) (fuel : nat) :
  length st < fuel ->
  exists st' tr,
    _destroy fuel st a = Some (st', tr) /\
    (forall i, flag st' i = flag st i) /\
    (forall i, is_marked st i -> teardowns i tr = 0) /\
    (forall b, reach st (is_marked st) a b <-> 1 <= teardowns b tr).
Proof.
  intros Hfuel.
  assert (Hcount : unmarked_count st < fuel).
  { unfold unmarked_count.
    pose proof (List.filter_length_le negb (BeingDestroyed <$> st)) as Hle.
    rewrite length_fmap in Hle. lia. }
  destruct (destroy_meets_spec fuel st a Hcount) as (st' & tr & E & _ & Hf & Hg & Hc & Hs).
  exists st', tr. split; [exact E|]. split; [exact Hf|]. split; [exact Hg|].
  intros b. split; [apply Hc | apply Hs].
Qed.

(** A handler and its child that hold each other: the teardown of the
    handler ends. *)
Lemma destroy_terminates_and_covers_witness :
  exists st' tr,
    _destroy 3 cyclic_store 0 = Some (st', tr) /\
    (forall i, flag st' i = flag cyclic_store i) /\
    (forall i, is_marked cyclic_store i -> teardowns i tr = 0) /\
    (forall b, reach cyclic_store (is_marked cyclic_store) 0 b <-> 1 <= teardowns b tr).
Proof.
  apply (destroy_terminates_and_covers cyclic_store 0 3). simpl. lia.
Defined.

(** A handler whose class holds another handler as a class attribute:
    [step_down] finds the child, and the teardown of the handler leaves
    it alone. *)
Lemma class_attribute_not_torn_down :
  step_down class_child_store
    (WPHandler_init false None false [("child", OHandler 1)] 0 None) "child"
    = Ok (Some (OHandler 1)) /\
  exists st',
    _destroy 3 class_child_store 0 = Some (st', [Teardown 0]) /\
    st' !! 1 = class_child_store !! 1.
Proof. split; [reflexivity|]. eexists. split; reflexivity. Qed.

End DestroyTheory.

(* ===================================================================== *)
(** ** Further properties of the Response Model                           *)
(* ===================================================================== *)

Module ResponseFacts.
Import ResponseModel ResponseShapes ResponseTheory.

Lemma list_comprehension_bytes l :
  forallb is_chunk l = true ->
  list_comprehension to_bytes l = Ok (map chunk_bytes l).
Proof.
  induction l as [|x l IH]; cbn [forallb list_comprehension map]; intros H.
  - reflexivity.
  - apply andb_true_iff in H as [Hx Hl]. rewrite (IH Hl).
    destruct x; try discriminate; reflexivity.
Qed.

(** What the body element leaves in [app_iter] and [text]. *)
Lemma loop_body_fixes resp b st :
  body_fixed st = false -> is_body b = true -> body_converts b = true ->
  exists st',
    loop_body resp b st = Ok st' /\
    match l_text st' with
    | Some t => BodyText t
    | None => default BodyEmpty (l_app_iter st')
    end = body_of b.
Proof.
  intros Hopen Hb Hconv. rewrite (loop_body_open _ _ _ Hopen).
  unfold body_fixed in Hopen.
  destruct (l_app_iter st) eqn:Ea; [discriminate|].
  destruct (l_text st) eqn:Et; [discriminate|].
  destruct b; try discriminate; cbn [body_branch].
  - eexists. split; [reflexivity|]. reflexivity.
  - eexists. split; [reflexivity|]. cbn. rewrite Et. reflexivity.
  - cbn [body_converts] in Hconv. rewrite Hconv.
    eexists. split; [reflexivity|]. cbn. rewrite Et. reflexivity.
  - cbn [body_converts] in Hconv. rewrite (list_comprehension_bytes _ Hconv).
    eexists. split; [reflexivity|]. cbn. rewrite Et. reflexivity.
  - eexists. split; [reflexivity|]. cbn. rewrite Et. reflexivity.
  - eexists. split; [reflexivity|]. cbn. rewrite Et. reflexivity.
Qed.

Lemma build_body st :
  body (build st) =
    match l_text st with
    | Some t => BodyText t
    | None => default BodyEmpty (l_app_iter st)
    end.
Proof.
  unfold build.
  destruct (l_headers st), (l_content_type st) as [ct|], (l_text st);
    try destruct (String.eqb ct ""); reflexivity.
Qed.

(** The body of the response comes from the body-like element alone:
    neither the integers before it nor the mappings, integers and strings
    after it change it.  A list is converted chunk by chunk, another
    iterable is kept for later. *)
Theorem makeResponse_body (pre post : list pyval) (b : pyval) :
  forallb is_int pre = true ->
  is_body b = true -> body_converts b = true ->
  forallb is_meta post = true ->
  exists r, makeResponse (PTuple (pre ++ b :: post)) = Ok r /\ body r = body_of b.
Proof.
  intros Hpre Hb Hconv Hpost.
  apply forallb_Forall in Hpre. apply forallb_Forall in Hpost.
  set (resp := pre ++ b :: post).
  change (makeResponse (PTuple resp))
    with (bind (for_parts resp resp locals_init) (fun st => Ok (build st))).
  unfold resp at 2.
  destruct (for_parts_ints resp pre (b :: post) locals_init eq_refl Hpre)
    as (st1 & E1 & Ho1 & _).
  destruct (loop_body_fixes resp b st1 Ho1 Hb Hconv) as (st2 & E2 & Hbody).
  assert (Hf2 : body_fixed st2 = true).
  { destruct (loop_body_body resp b st1 Ho1 Hb Hconv) as (st2' & E2' & Hf & _).
    congruence. }
  destruct (for_parts_meta resp post st2 Hf2 Hpost) as (st3 & E3 & Ha3 & Ht3 & _).
  rewrite E1. cbn [for_parts]. rewrite E2. cbn [bind]. rewrite E3. cbn [bind].
  exists (build st3). split; [reflexivity|].
  rewrite build_body, Ha3, Ht3. exact Hbody.
Qed.

(** A status, a list of two chunks and a content-type. *)
Lemma makeResponse_body_witness :
  exists r,
    makeResponse (PTuple ([PInt 200] ++ PList [PStr "a"; PBytes []] :: [PStr "text/plain"]))
      = Ok r /\
    body r = BodyChunks [encode_utf8 "a"; []].
Proof.
  apply (makeResponse_body [PInt 200] [PStr "text/plain"] (PList [PStr "a"; PBytes []]));
    reflexivity.
Defined.

(** A body-like element that does not convert, after integers only, makes
    [makeResponse] raise [TypeError] (a mapping that [json.dumps] refuses)
    or [AttributeError] (a list with an item that is neither a string nor a
    byte string), whatever follows it; this is not the invalid-response
    error. *)
Theorem makeResponse_conversion_fault (v : pyval) (pre post : list pyval) (b : pyval) :
  (forall r, v <> PResponse r) ->
  as_tuple v = pre ++ b :: post ->
  forallb is_int pre = true ->
  is_body b = true -> body_converts b = false ->
  makeResponse v = Raise (body_fault b).
Proof.
  intros Hnr Hparts Hpre Hb Hconv.
  apply forallb_Forall in Hpre.
  assert (Hi : is_int v = false).
  { destruct v; try reflexivity. exfalso. cbn [as_tuple] in Hparts.
    destruct pre as [|p pre]; cbn [app] in Hparts.
    - injection Hparts as <- _. discriminate.
    - injection Hparts as _ E. destruct pre; discriminate. }
  rewrite (makeResponse_unfold v Hnr Hi), Hparts.
  destruct (for_parts_ints (pre ++ b :: post) pre (b :: post) locals_init eq_refl Hpre)
    as (st1 & E1 & Ho1 & _).
  rewrite E1. cbn [for_parts].
  rewrite (loop_body_open _ _ _ Ho1).
  destruct b; try discriminate; cbn [body_branch body_fault].
  - cbn [body_converts] in Hconv. rewrite Hconv. reflexivity.
  - cbn [body_converts] in Hconv. rewrite (list_comprehension_fault _ Hconv). reflexivity.
Qed.

(** A list body that holds a number. *)
Lemma makeResponse_conversion_fault_witness :
  makeResponse (PList [PStr "a"; PInt 1]) = Raise AttributeError.
Proof.
  apply (makeResponse_conversion_fault (PList [PStr "a"; PInt 1]) [] []
           (PList [PStr "a"; PInt 1])); try reflexivity.
  discriminate.
Defined.

Lemma pick_last_last {A} (f : pyval -> option A) l init :
  pick_last f l init = match last (omap f l) with Some v => Some v | None => init end.
Proof.
  induction l as [|x l IH] using rev_ind; [reflexivity|].
  rewrite pick_last_app, omap_app. unfold pick_last at 1. cbn [fold_left].
  rewrite (omap_cons f x []). cbn [omap list_omap].
  destruct (f x) as [v|].
  - rewrite last_snoc. reflexivity.
  - rewrite app_nil_r. exact IH.
Qed.

(** Among the integers of a tuple the last one is the status; among the
    mappings and the strings that follow the body the last one gives the
    headers and the content-type. *)
Theorem makeResponse_last_wins (pre post : list pyval) (b : pyval) :
  forallb is_int pre = true ->
  is_body b = true -> body_converts b = true ->
  forallb is_meta post = true ->
  exists r,
    makeResponse (PTuple (pre ++ b :: post)) = Ok r /\
    status r = default default_status (last (omap as_int (pre ++ post))) /\
    headers r = default [] (last (omap as_dict post)) /\
    content_type r =
      final_content_type b (last (omap as_str post)) (last (omap as_dict post)).
Proof.
  intros Hpre Hb Hconv Hpost.
  apply forallb_Forall in Hpre. apply forallb_Forall in Hpost.
  set (resp := pre ++ b :: post).
  change (makeResponse (PTuple resp))
    with (bind (for_parts resp resp locals_init) (fun st => Ok (build st))).
  unfold resp at 2.
  destruct (for_parts_ints resp pre (b :: post) locals_init eq_refl Hpre)
    as (st1 & E1 & Ho1 & Hs1 & Hh1 & Hc1).
  destruct (loop_body_body resp b st1 Ho1 Hb Hconv) as (st2 & E2 & Hf2 & Hs2 & Hh2 & Hc2).
  destruct (for_parts_meta resp post st2 Hf2 Hpost) as (st3 & E3 & _ & _ & Hs3 & Hh3 & Hc3).
  rewrite E1. cbn [for_parts]. rewrite E2. cbn [bind]. rewrite E3. cbn [bind].
  exists (build st3). split; [reflexivity|].
  rewrite build_status, build_headers, build_content_type.
  rewrite Hs3, Hh3, Hc3, Hs2, Hh2, Hc2, Hs1, Hh1, Hc1.
  cbn [l_status l_headers l_content_type locals_init].
  rewrite <- pick_last_app.
  rewrite (pick_last_last as_int), (pick_last_last as_dict), (pick_last_last as_str).
  unfold final_content_type.
  generalize (last (omap as_int (pre ++ post))) (last (omap as_dict post))
             (last (omap as_str post)).
  intros [n|] [h|] [s|]; destruct b; repeat split; reflexivity.
Qed.

(** Two statuses and two content-types: the later ones stand. *)
Lemma makeResponse_last_wins_witness :
  exists r,
    makeResponse (PTuple ([PInt 200] ++ PBytes []
                            :: [PStr "text/plain"; PInt 404; PStr "text/csv"])) = Ok r /\
    status r = 404%Z /\
    headers r = [] /\
    content_type r = "text/csv".
Proof.
  apply (makeResponse_last_wins [PInt 200] [PStr "text/plain"; PInt 404; PStr "text/csv"]
           (PBytes [])); reflexivity.
Defined.

End ResponseFacts.

(* ===================================================================== *)
(** ** Further properties of the Permission Gate                          *)
(* ===================================================================== *)

Module GateFacts.
Import PermissionGate.

Lemma for_roles_no_permissions roles : for_roles roles [] = false.
Proof. induction roles as [|r roles IH]; [reflexivity | exact IH]. Qed.

Lemma for_roles_no_roles permissions : for_roles [] permissions = false.
Proof. reflexivity. Qed.

Section EmptyGate.
Context {Handler Request Params R : Type}.
Variable _roles : Handler -> Request -> string -> result roles_value.
Variable method : Handler -> Request -> string -> Params -> result R.

(** A method wrapped with an empty list of permissions is closed to
    everyone, and so is any gated method to a caller whose role lookup
    gives no role: the wrapper returns Forbidden and does not call the
    method. *)
Theorem webmethod_gate_empty (handler : Handler) (request : Request) (relpath : string)
    (params : Params) :
  (exists detail,
     decorated _roles method (Some []) handler request relpath params =
       ([CallRoles], Ok (HTTPForbidden detail))) /\
  (forall permissions,
     _roles handler request relpath = Ok (RolesList []) ->
     decorated _roles method (Some permissions) handler request relpath params =
       ([CallRoles], Ok (HTTPForbidden None))).
Proof.
  unfold decorated. split.
  - destruct (_roles handler request relpath) as [roles|e].
    + rewrite for_roles_no_permissions. eexists. reflexivity.
    + eexists. reflexivity.
  - intros permissions ->. reflexivity.
Qed.
End EmptyGate.

(** A caller without any role at a method that asks for ["admin"]. *)
Lemma webmethod_gate_empty_witness :
  decorated (fun (_ _ : unit) (_ : string) => Ok (RolesList []))
            (fun (_ _ : unit) (_ : string) (_ : unit) => Ok 7)
            (Some ["admin"]) tt tt "" tt
    = ([CallRoles], Ok (HTTPForbidden None)).
Proof.
  apply (proj2 (webmethod_gate_empty
                  (fun (_ _ : unit) (_ : string) => Ok (RolesList []))
                  (fun (_ _ : unit) (_ : string) (_ : unit) => Ok 7) tt tt "" tt)
               ["admin"]).
  reflexivity.
Defined.

End GateFacts.

(* ===================================================================== *)
(** ** Further properties of the query parser                             *)
(* ===================================================================== *)

Module QueryFacts.
Import Query QueryTheory CoordinatorTheory.

Lemma fold_parse_app ws1 ws2 out :
  fold_left (fun out w => parse_word w out) (ws1 ++ ws2) out =
  fold_left (fun out w => parse_word w out) ws2
            (fold_left (fun out w => parse_word w out) ws1 out).
Proof. apply fold_left_app. Qed.

(** An ampersand at the start or at the end of the query string, and an
    absent or empty query string, add nothing to the mapping. *)
Theorem parseQuery_stray_ampersand (query : string) :
  parseQuery (Some (query ++ "&")%string) = parseQuery (Some query) /\
  parseQuery (Some ("&" ++ query)%string) = parseQuery (Some query) /\
  parseQuery None = [] /\ parseQuery (Some "") = [].
Proof.
  unfold parseQuery. cbn [default]. unfold id. rewrite !str_or_empty.
  repeat split.
  change "&" with (String "&"%char "").
  rewrite split_app_sep, fold_parse_app. reflexivity.
Qed.

Lemma occurrence_key k w v : word_value k w = Some v -> k <> "".
Proof.
  unfold word_value, word_pair.
  destruct (split1 "=" w) as [|k0 rest]; [discriminate|].
  destruct (String.eqb k0 "") eqn:E0; [discriminate|].
  destruct (String.eqb k k0) eqn:E; [|discriminate].
  apply String.eqb_eq in E. subst k0. intros _ ->. discriminate.
Qed.

Lemma occurrences_key k ws : omap (word_value k) ws <> [] -> k <> "".
Proof.
  induction ws as [|w ws IH]; [intros H; exfalso; apply H; reflexivity|].
  rewrite omap_cons. destruct (word_value k w) eqn:E; [|exact IH].
  intros _. eapply occurrence_key. exact E.
Qed.

(** In the mapping no key is empty, and a list value holds at least two
    values: a key that occurs once is never wrapped in a list. *)
Theorem parseQuery_entries (query : option string) (k : string) (v : qvalue) :
  dict_get k (parseQuery query) = Some v ->
  k <> "" /\
  match v with
  | QList l => 2 <= length l
  | QOne _ => True
  end.
Proof.
  unfold parseQuery.
  rewrite (fold_parse_get _ [] (fun _ => []) (fun _ => eq_refl) k). cbn [app].
  set (vs := omap (word_value k) _).
  intros H. split.
  - apply (occurrences_key k (split "&" (str_or (default "" query) ""))).
    fold vs. intros E. rewrite E in H. discriminate.
  - destruct vs as [|x [|y l]]; cbn [collected] in H; try discriminate;
      injection H as <-; [exact I | cbn [length]; lia].
Qed.

(** The key [a] occurs twice. *)
Lemma parseQuery_entries_witness :
  "a" <> "" /\ 2 <= length [Some "1"; None].
Proof.
  apply (parseQuery_entries (Some "a=1&b=2&a") "a" (QList [Some "1"; None])).
  reflexivity.
Defined.

End QueryFacts.

(* ===================================================================== *)
(** ** Further properties of [step_down] and [addHandler]                 *)
(* ===================================================================== *)

Module StepFacts.
Import Handlers StepTheory.

Lemma getattr_addHandler name m h k : getattr (addHandler name m h) k = getattr h k.
Proof. reflexivity. Qed.

Lemma hasattr_addHandler name m h k : hasattr (addHandler name m h) k = hasattr h k.
Proof. reflexivity. Qed.

Lemma registered_addHandler name m h :
  dict_get name (_WebMethods (addHandler name m h)) = Some m.
Proof.
  unfold addHandler. cbn [_WebMethods].
  rewrite QueryTheory.dict_get_set, String.eqb_refl. reflexivity.
Qed.

(** What [step_down] returns is a callable or a handler of the store,
    never another value. *)
Theorem step_down_returns_callable_or_handler (st : store) (h : WPHandler)
    (name : string) (a : pyobj) :
  step_down st h name = Ok (Some a) ->
  callable st a = true \/ isinstance_WPHandler st a = true.
Proof.
  unfold step_down.
  destruct (hasattr h name) as [found|e]; cbn [bind]; [|discriminate].
  destruct (match (if found then getattr h name else None) with
            | Some a0 => (a0, negb (_Strict h))
            | None => match dict_get name (_WebMethods h) with
                      | Some a0 => (a0, true)
                      | None => (ONone, negb (_Strict h))
                      end
            end) as [attr allowed].
  destruct (callable st attr) eqn:Hc.
  - destruct attr; try discriminate;
      destruct allowed; cbn [bind];
      try (destruct (match _MethodNames h with
                     | Some names => existsb (String.eqb name) names
                     | None => false
                     end); cbn [bind tagged_check]);
      intros H; try discriminate; injection H as <-; left; exact Hc.
  - destruct attr; try discriminate;
      destruct (isinstance_WPHandler st _) eqn:Hi; intros H; try discriminate;
      injection H as <-; right; exact Hi.
Qed.

(** A callable that [step_down] finds in a store with one handler. *)
Lemma step_down_returns_callable_or_handler_witness :
  callable [plain_handler] (OCallable "step_down" None) = true \/
  isinstance_WPHandler [plain_handler] (OCallable "step_down" None) = true.
Proof.
  apply (step_down_returns_callable_or_handler [plain_handler] plain_handler "step_down").
  reflexivity.
Defined.

(** A method registered with [addHandler] under a name for which
    [hasattr] is false (the name is not [session], and neither the
    handler nor its class nor [WPHandler] nor [object] has an attribute of
    that name) is found under that name, in strict mode too. *)
Theorem step_down_registered (st : store) (h : WPHandler) (name : string) (m : pyobj) :
  hasattr h name = Ok false ->
  callable st m = true \/ isinstance_WPHandler st m = true ->
  step_down st (addHandler name m h) name = Ok (Some m).
Proof.
  intros Hattr Hm. unfold step_down.
  rewrite hasattr_addHandler, Hattr, registered_addHandler. cbn [bind].
  destruct m; try (destruct Hm; discriminate).
  - destruct (callable st (OHandler id)) eqn:Hc; [reflexivity|].
    destruct Hm as [Hm|Hm]; [discriminate|]. rewrite Hm. reflexivity.
  - reflexivity.
Qed.

(** A strict handler with a registered page. *)
Lemma step_down_registered_witness :
  step_down [] (addHandler "report" (OCallable "report" None)
                  (WPHandler_init true None false [] 0 None)) "report"
    = Ok (Some (OCallable "report" None)).
Proof.
  apply (step_down_registered [] (WPHandler_init true None false [] 0 None) "report").
  - reflexivity.
  - left. reflexivity.
Defined.

(** In strict mode a callable attribute whose name is listed in
    [_MethodNames] is returned. *)
Theorem step_down_strict_listed (st : store) (h : WPHandler) (name : string)
    (a : pyobj) (names : list string) :
  _Strict h = true ->
  _MethodNames h = Some names -> In name names ->
  getattr h name = Some a -> callable st a = true ->
  step_down st h name = Ok (Some a).
Proof.
  intros Hstrict Hnames Hin Hattr Hcall. unfold step_down.
  rewrite (getattr_hasattr _ _ _ Hattr). cbn [bind].
  rewrite Hattr, Hstrict, Hnames, Hcall. cbn [negb].
  assert (existsb (String.eqb name) names = true) as ->.
  { apply existsb_exists. exists name. split; [exact Hin | apply String.eqb_refl]. }
  destruct a; try discriminate; reflexivity.
Qed.

(** A strict handler whose class lists its method [hello]. *)
Lemma step_down_strict_listed_witness :
  step_down [] (WPHandler_init true (Some ["hello"]) false
                  [("hello", OCallable "hello" None)] 0 None) "hello"
    = Ok (Some (OCallable "hello" None)).
Proof.
  apply (step_down_strict_listed [] _ "hello" _ ["hello"]); try reflexivity.
  left. reflexivity.
Defined.

(** An attribute that holds a handler which is not callable is returned in
    strict mode as in permissive mode: strictness bears on callables
    only. *)
Theorem step_down_child (st : store) (h : WPHandler) (name : string) (c : nat)
    (hc : WPHandler) :
  getattr h name = Some (OHandler c) ->
  st !! c = Some hc -> cls_callable hc = false ->
  step_down st h name = Ok (Some (OHandler c)).
Proof.
  intros Hattr Hc Hcall. unfold step_down.
  rewrite (getattr_hasattr _ _ _ Hattr). cbn [bind]. rewrite Hattr.
  cbn [callable isinstance_WPHandler]. rewrite Hc, Hcall.
  rewrite bool_decide_eq_true_2 by eauto. reflexivity.
Qed.

(** The child of the root of [cyclic_store], asked for in strict mode. *)
Lemma step_down_child_witness :
  step_down cyclic_store
    (with_attrs [("child", OHandler 1)] (WPHandler_init true None false [] 0 None)) "child"
    = Ok (Some (OHandler 1)).
Proof.
  apply (step_down_child cyclic_store _ "child" 1
           (with_attrs [("parent", OHandler 0)] plain_handler)); reflexivity.
Defined.

(** In strict mode a callable attribute whose name is not listed in
    [_MethodNames] is not made reachable by registering it with
    [addHandler] under its own name: the attribute is found first, the
    registration is not looked at, and the lookup ends in [NameError]. *)
Theorem step_down_registration_shadowed (st : store) (h : WPHandler) (name : string)
    (a m : pyobj) :
  _Strict h = true ->
  getattr h name = Some a -> callable st a = true ->
  match _MethodNames h with
  | Some names => existsb (String.eqb name) names
  | None => false
  end = false ->
  step_down st (addHandler name m h) name = Raise (NameError "method").
Proof.
  intros Hstrict Hattr Hcall Hnames. unfold step_down.
  rewrite hasattr_addHandler, (getattr_hasattr _ _ _ Hattr). cbn [bind].
  rewrite getattr_addHandler, Hattr.
  change (_Strict (addHandler name m h)) with (_Strict h).
  change (_MethodNames (addHandler name m h)) with (_MethodNames h).
  rewrite Hstrict, Hcall, Hnames.
  destruct a; try discriminate; reflexivity.
Qed.

(** A strict handler that registers its own method [index]. *)
Lemma step_down_registration_shadowed_witness :
  step_down []
    (addHandler "index" (OCallable "index" None)
       (WPHandler_init true None false [("index", OCallable "index" None)] 0 None))
    "index" = Raise (NameError "method").
Proof.
  apply (step_down_registration_shadowed [] _ "index" (OCallable "index" None));
    reflexivity.
Defined.

(** The debugging page [.env] of a fresh handler is found exactly when
    the handler is not strict. *)
Theorem step_down_env_page (st : store) (strict : bool) (method_names : option (list string))
    (has_call : bool) (class_attrs : list (string * pyobj)) (app : nat)
    (app_url : option string) :
  dict_get ".env" class_attrs = None ->
  step_down st (WPHandler_init strict method_names has_call class_attrs app app_url) ".env"
    = if strict then Ok None else Ok (Some (OCallable "_env__" None)).
Proof.
  intros Hfree.
  assert (Hmiss : forall h, cls_attrs h = class_attrs -> inst_attrs h = [] ->
                            getattr h ".env" = None).
  { intros h Hc Hi. unfold getattr, instance_dict.
    rewrite (eq_refl : String.eqb ".env" "session" = false), Hc, Hi.
    rewrite !dict_get_app, Hfree. reflexivity. }
  unfold step_down, hasattr.
  rewrite (eq_refl : String.eqb ".env" "session" = false).
  destruct strict; cbn [WPHandler_init]; rewrite Hmiss by reflexivity; reflexivity.
Qed.

(** A fresh permissive handler of the base class. *)
Lemma step_down_env_page_witness :
  step_down [] (WPHandler_init false None false [] 0 None) ".env"
    = Ok (Some (OCallable "_env__" None)).
Proof.
  apply (step_down_env_page [] false None false [] 0 None). reflexivity.
Defined.

End StepFacts.

(* ===================================================================== *)
(** ** Further properties of the path resolver                            *)
(* ===================================================================== *)

Module ResolverFacts.
Import Handlers ResolverShapes ResolverTheory.

Lemma stores_same_trans st1 st2 st3 :
  stores_same_but_Path st1 st2 -> stores_same_but_Path st2 st3 ->
  stores_same_but_Path st1 st3.
Proof. intros H1 H2 id. rewrite (H1 id). apply H2. Qed.

Lemma stores_same_lookup st st' a h :
  stores_same_but_Path st st' -> st !! a = Some h ->
  exists h', st' !! a = Some h' /\ same_but_Path h h'.
Proof.
  intros Hst Ha. pose proof (Hst a) as Hl. rewrite Ha in Hl.
  destruct (st' !! a) as [h'|]; [|discriminate].
  exists h'. split; [reflexivity|].
  unfold same_but_Path. cbn [option_map] in Hl. congruence.
Qed.

Lemma find_web_method_other D st handler path path_down :
  (forall id, handler <> OHandler id) ->
  find_web_method D st handler path path_down =
    (st, if callable st handler then Resolved (Some handler) (join "/" path_down)
         else Resolved None (join "/" path_down)).
Proof.
  intros H. destruct handler; destruct path_down; try reflexivity;
    exfalso; eapply H; reflexivity.
Qed.

Lemma find_web_method_dangling D st id path path_down :
  st !! id = None ->
  find_web_method D st (OHandler id) path path_down =
    (st, Resolved None (join "/" path_down)).
Proof. intros E. destruct path_down; simpl; rewrite E; reflexivity. Qed.

(** The resolver writes the [Path] of the handlers it visits and nothing
    else: every handler of the store keeps all its other attributes. *)
Theorem find_web_method_writes_Path_only (D : string) (st : store) (handler : pyobj)
    (path : string) (path_down : list string) :
  stores_same_but_Path st (fst (find_web_method D st handler path path_down)).
Proof.
  revert st handler path.
  induction path_down as [|name rest IH]; intros st handler path.
  - destruct handler as [|id| |]; try apply stores_same_refl.
    destruct (st !! id) as [h|] eqn:E.
    + rewrite (find_web_method_handler _ _ _ _ _ _ E). cbn zeta. cbn [fst].
      apply stores_same_insert; [apply stores_same_refl | exact E].
    + rewrite (find_web_method_dangling _ _ _ _ _ E). apply stores_same_refl.
  - destruct handler as [|id| |]; try apply stores_same_refl.
    destruct (st !! id) as [h|] eqn:E.
    + rewrite (find_web_method_handler _ _ _ _ _ _ E). cbn zeta.
      assert (Hst : stores_same_but_Path st (<[id := set_Path (Some (str_or path "/")) h]> st))
        by (apply stores_same_insert; [apply stores_same_refl | exact E]).
      destruct (step_down _ _ name) as [[attr|]|e]; cbn [fst]; try exact Hst.
      eapply stores_same_trans; [exact Hst | apply IH].
    + rewrite (find_web_method_dangling _ _ _ _ _ E). apply stores_same_refl.
Qed.

(** The relpath the resolver returns is what is left of the segments: the
    segments are those it has walked through followed by those it joins,
    with slashes, into the relpath. *)
Lemma find_web_method_relpath (D : string) (st : store) (handler : pyobj)
    (path : string) (path_down : list string) (method : option pyobj) (relpath : string) :
  snd (find_web_method D st handler path path_down) = Resolved method relpath ->
  exists consumed rest,
    path_down = consumed ++ rest /\ relpath = join "/" rest.
Proof.
  revert st handler path.
  induction path_down as [|name rest IH]; intros st handler path H.
  - exists [], []. split; [reflexivity|].
    destruct handler as [|id| |].
    + rewrite find_web_method_other in H by discriminate. cbn [snd] in H.
      destruct (callable st ONone); congruence.
    + destruct (st !! id) as [h|] eqn:E.
      * rewrite (find_web_method_handler _ _ _ _ _ _ E) in H. cbn zeta in H.
        cbn [snd] in H. destruct (cls_callable _); congruence.
      * rewrite (find_web_method_dangling _ _ _ _ _ E) in H. cbn [snd] in H. congruence.
    + rewrite find_web_method_other in H by discriminate. cbn [snd] in H.
      destruct (callable st _); congruence.
    + rewrite find_web_method_other in H by discriminate. cbn [snd] in H.
      destruct (callable st _); congruence.
  - destruct handler as [|id| |].
    + exists [], (name :: rest). split; [reflexivity|].
      rewrite find_web_method_other in H by discriminate. cbn [snd] in H.
      destruct (callable st ONone); congruence.
    + destruct (st !! id) as [h|] eqn:E.
      * rewrite (find_web_method_handler _ _ _ _ _ _ E) in H. cbn zeta in H.
        destruct (step_down _ _ name) as [[attr|]|e].
        -- destruct (IH _ _ _ H) as (consumed & rest' & -> & ->).
           exists (name :: consumed), rest'. split; reflexivity.
        -- exists [], (name :: rest). split; [reflexivity|]. cbn [snd] in H.
           destruct (cls_callable _); congruence.
        -- discriminate.
      * rewrite (find_web_method_dangling _ _ _ _ _ E) in H. cbn [snd] in H.
        exists [], (name :: rest). split; [reflexivity|]. congruence.
    + exists [], (name :: rest). split; [reflexivity|].
      rewrite find_web_method_other in H by discriminate. cbn [snd] in H.
      destruct (callable st _); congruence.
    + exists [], (name :: rest). split; [reflexivity|].
      rewrite find_web_method_other in H by discriminate. cbn [snd] in H.
      destruct (callable st _); congruence.
Qed.

(** A descent through handlers is a chain of resolver calls: after the
    segments walked through, the resolver goes on from the handler
    reached, with the segments that are left. *)
Lemma descent_continues D st a consumed b :
  descends st a consumed b ->
  forall st' path rest,
    stores_same_but_Path st st' ->
    exists st'',
      stores_same_but_Path st st'' /\
      find_web_method D st' (OHandler a) path (consumed ++ rest) =
      find_web_method D st'' (OHandler b) (passed path consumed) rest.
Proof.
  induction 1 as [a h Ha | a h name c rest0 b Ha Hstep Hdesc IH];
    intros st' path rest Hst.
  - exists st'. split; [exact Hst | reflexivity].
  - destruct (stores_same_lookup st st' a h Hst Ha) as (h' & Ha' & Hs).
    cbn [app]. rewrite (find_web_method_handler _ _ _ _ _ _ Ha'). cbn zeta.
    assert (Hst1 : stores_same_but_Path st (<[a := set_Path (Some (str_or path "/")) h']> st'))
      by (apply stores_same_insert; assumption).
    rewrite <- (step_down_Path_irrelevant st _ h (set_Path (Some (str_or path "/")) h') name);
      [| exact Hst1 | unfold same_but_Path in *; rewrite Hs; reflexivity].
    rewrite Hstep. cbn [passed]. apply IH. exact Hst1.
Qed.

Lemma stop_outcome D st st' b hb path rest :
  stores_same_but_Path st st' ->
  st !! b = Some hb -> stops_at st hb rest ->
  snd (find_web_method D st' (OHandler b) path rest) =
    if cls_callable hb then Resolved (Some (OHandler b)) (join "/" rest)
    else match rest with
         | [] => Redirect (ensure_slash (str_or path "/") ++ D)
         | _ :: _ => Resolved None (join "/" rest)
         end.
Proof.
  intros Hst Hb Hstop.
  destruct (stores_same_lookup st st' b hb Hst Hb) as (h' & Hb' & Hs).
  rewrite (find_web_method_handler _ _ _ _ _ _ Hb'). cbn zeta.
  assert (Hc : cls_callable (set_Path (Some (str_or path "/")) h') = cls_callable hb).
  { apply same_but_Path_fields in Hs. cbn [set_Path cls_callable]. symmetry. tauto. }
  rewrite Hc.
  destruct rest as [|name rest]; [reflexivity|].
  cbn [stops_at] in Hstop.
  rewrite <- (step_down_Path_irrelevant st _ hb (set_Path (Some (str_or path "/")) h') name).
  - rewrite Hstop. reflexivity.
  - apply stores_same_insert; assumption.
  - unfold same_but_Path in *. rewrite Hs. reflexivity.
Qed.

(** When the descent stops at a callable handler (no segment is left, or
    the handler has nothing under the next one), that handler is the web
    method and the segments left, joined by slashes, are the relpath; when
    it stops at a handler that is not callable with segments left, no
    method is found. *)
Theorem resolution_stops_at_handler (D : string) (st : store) (a b : nat)
    (hb : WPHandler) (path : string) (consumed rest : list string) :
  descends st a consumed b ->
  st !! b = Some hb -> stops_at st hb rest ->
  (cls_callable hb = true ->
   snd (find_web_method D st (OHandler a) path (consumed ++ rest)) =
     Resolved (Some (OHandler b)) (join "/" rest)) /\
  (cls_callable hb = false -> rest <> [] ->
   snd (find_web_method D st (OHandler a) path (consumed ++ rest)) =
     Resolved None (join "/" rest)).
Proof.
  intros Hdesc Hb Hstop.
  destruct (descent_continues D st a consumed b Hdesc st path rest (stores_same_refl st))
    as (st'' & Hst & ->).
  rewrite (stop_outcome D st st'' b hb _ rest Hst Hb Hstop).
  split.
  - intros ->. reflexivity.
  - intros -> Hne. destruct rest; [contradiction | reflexivity].
Qed.

(** When [step_down] hands back a function or a method for a segment, it
    is the web method, and the segments after that one are the relpath;
    when [step_down] raises, the resolver raises the same exception. *)
Theorem resolution_by_step_down (D : string) (st : store) (a b : nat)
    (hb : WPHandler) (path : string) (consumed : list string) (name : string)
    (rest : list string) :
  descends st a consumed b ->
  st !! b = Some hb ->
  (forall f doc,
     step_down st hb name = Ok (Some (OCallable f doc)) ->
     snd (find_web_method D st (OHandler a) path (consumed ++ name :: rest)) =
       Resolved (Some (OCallable f doc)) (join "/" rest)) /\
  (forall e,
     step_down st hb name = Raise e ->
     snd (find_web_method D st (OHandler a) path (consumed ++ name :: rest)) = Fault e).
Proof.
  intros Hdesc Hb.
  destruct (descent_continues D st a consumed b Hdesc st path (name :: rest)
              (stores_same_refl st)) as (st'' & Hst & ->).
  destruct (stores_same_lookup st st'' b hb Hst Hb) as (h' & Hb' & Hs).
  rewrite (find_web_method_handler _ _ _ _ _ _ Hb'). cbn zeta.
  rewrite <- (step_down_Path_irrelevant st _ hb
                (set_Path (Some (str_or (passed path consumed) "/")) h') name);
    [| apply stores_same_insert; assumption
     | unfold same_but_Path in *; rewrite Hs; reflexivity].
  split.
  - intros f doc ->. rewrite find_web_method_other by discriminate. reflexivity.
  - intros e ->. reflexivity.
Qed.

(** The example of the specification: the path [/a/b/c] where [b] is a
    callable handler with nothing under [c]. *)
Lemma resolution_stops_at_handler_witness :
  snd (find_web_method "index" nested_store (OHandler 0) "" (["a"; "b"] ++ ["c"])) =
    Resolved (Some (OHandler 2)) (join "/" ["c"]).
Proof.
  apply (proj1 (resolution_stops_at_handler "index" nested_store 0 2
                  (WPHandler_init false None true [] 0 None) "" ["a"; "b"] ["c"]
                  ltac:(eapply descends_cons; [reflexivity | reflexivity |];
                        eapply descends_cons; [reflexivity | reflexivity |];
                        eapply descends_nil; reflexivity)
                  eq_refl eq_refl)).
  reflexivity.
Defined.

(** The page [.env] of a plain root handler, with one segment left. *)
Lemma resolution_by_step_down_witness :
  snd (find_web_method "index" [plain_handler] (OHandler 0) "" ([] ++ ".env" :: ["x"])) =
    Resolved (Some (OCallable "_env__" None)) (join "/" ["x"]).
Proof.
  apply (proj1 (resolution_by_step_down "index" [plain_handler] 0 0 plain_handler ""
                  [] ".env" ["x"]
                  ltac:(eapply descends_nil; reflexivity) eq_refl)).
  reflexivity.
Defined.

End ResolverFacts.

(* ===================================================================== *)
(** ** Further properties of the Application Coordinator                  *)
(* ===================================================================== *)

Module CoordinatorFacts.
Import Handlers Coordinator ResolverTheory CoordinatorTheory ResolverFacts.

(** *** Strings *)

Lemma startswith_app (p t : string) : startswith p (p ++ t) = true.
Proof.
  unfold startswith. induction p as [|a p IH]; cbn [append String.prefix].
  - destruct t; reflexivity.
  - destruct (ascii_dec a a); [exact IH | congruence].
Qed.

Lemma startswith_inv (p s : string) :
  startswith p s = true -> exists t, s = (p ++ t)%string.
Proof.
  unfold startswith. revert s. induction p as [|a p IH]; intros s H.
  - exists s. reflexivity.
  - destruct s as [|b s]; cbn [String.prefix] in H; [discriminate|].
    destruct (ascii_dec a b) as [->|]; [|discriminate].
    destruct (IH s H) as [t ->]. exists t. reflexivity.
Qed.

Lemma slice_from_app (p t : string) : slice_from (String.length p) (p ++ t) = t.
Proof. induction p as [|a p IH]; [destruct t; reflexivity | exact IH]. Qed.

Lemma slice_from_all (p : string) : slice_from (String.length p) p = "".
Proof. induction p as [|a p IH]; [reflexivity | exact IH]. Qed.

Lemma append_empty_r (p : string) : (p ++ "")%string = p.
Proof. induction p as [|a p IH]; [reflexivity|]. cbn [append]. rewrite IH. reflexivity. Qed.

Lemma append_longer (p : string) (c : ascii) (t : string) :
  String.eqb (p ++ String c t) p = false.
Proof.
  induction p as [|a p IH]; [reflexivity|].
  cbn [append String.eqb]. rewrite Ascii.eqb_refl. exact IH.
Qed.

Lemma str_or_nonempty (s d : string) : d <> "" -> str_or s d <> "".
Proof.
  intros Hd. unfold str_or. destruct (String.eqb s "") eqn:E; [exact Hd|].
  intros ->. discriminate.
Qed.

Lemma str_or_keeps (s d : string) : s <> "" -> str_or s d = s.
Proof.
  intros Hs. unfold str_or. destruct (String.eqb s "") eqn:E; [|reflexivity].
  apply String.eqb_eq in E. contradiction.
Qed.

Lemma append_nonempty_r (a b : string) : b <> "" -> (a ++ b)%string <> "".
Proof. intros Hb. destruct a; [exact Hb | discriminate]. Qed.

(** *** [convertPath] *)

(** With a prefix, a path is taken exactly when it is the prefix or goes
    on after the prefix with a slash: a path that only begins with the
    letters of the prefix is refused. *)
Theorem convertPath_accepts (app : WPApp) (prefix path : string) :
  Prefix app = Some prefix ->
  (is_Some (convertPath app path) <->
   path = prefix \/ exists rest, path = (prefix ++ "/" ++ rest)%string).
Proof.
  intros Hp. unfold convertPath. rewrite Hp.
  destruct (String.eqb path prefix) eqn:E.
  - apply String.eqb_eq in E. split; [intros _; left; exact E | intros _; eexists; reflexivity].
  - destruct (startswith (prefix ++ "/") path) eqn:S.
    + split; [|intros _; eexists; reflexivity].
      intros _. right. destruct (startswith_inv _ _ S) as [t ->].
      exists t. apply append_assoc.
    + split; [intros [x Hx]; discriminate|].
      intros [-> | [rest ->]].
      * rewrite String.eqb_refl in E. discriminate.
      * rewrite <- append_assoc, startswith_app in S. discriminate.
Qed.

(** The prefix [/app] takes [/app/x] and not [/application]. *)
Lemma convertPath_accepts_witness :
  is_Some (convertPath (WPApp_init (Some "/app") (Some "") "index" []) "/app/x") <->
  "/app/x" = "/app" \/ exists rest, "/app/x" = ("/app" ++ "/" ++ rest)%string.
Proof.
  apply (convertPath_accepts (WPApp_init (Some "/app") (Some "") "index" []) "/app" "/app/x").
  reflexivity.
Defined.

(** With a prefix, the rest of the path after the prefix is kept and the
    prefix is replaced ([ReplacePrefix] being a string) or kept as it is
    ([ReplacePrefix] being [None]); the prefix alone becomes the
    replacement, or a slash when that is empty; the converted path is
    never empty. *)
Theorem convertPath_rewrites (app : WPApp) (prefix : string) :
  Prefix app = Some prefix ->
  (forall rest,
     convertPath app (prefix ++ "/" ++ rest) =
       Some (default prefix (ReplacePrefix app) ++ "/" ++ rest)%string) /\
  convertPath app prefix = Some (str_or (default prefix (ReplacePrefix app)) "/") /\
  (forall path path', convertPath app path = Some path' -> path' <> "").
Proof.
  intros Hp. unfold convertPath. rewrite Hp. repeat split.
  - intros rest. change ("/" ++ rest)%string with (String slash rest).
    rewrite append_longer.
    change (String slash rest) with ("/" ++ rest)%string.
    rewrite <- append_assoc, startswith_app, append_assoc.
    destruct (ReplacePrefix app) as [r|]; cbn [default]; unfold id.
    + rewrite slice_from_app, str_or_keeps; [reflexivity|].
      apply append_nonempty_r. discriminate.
    + rewrite str_or_keeps; [reflexivity|]. apply append_nonempty_r. discriminate.
  - rewrite String.eqb_refl.
    destruct (ReplacePrefix app) as [r|]; cbn [default]; unfold id; [|reflexivity].
    rewrite slice_from_all, append_empty_r. reflexivity.
  - intros path path'.
    destruct (if String.eqb path prefix then Some path
              else if startswith (prefix ++ "/") path then Some prefix else None);
      [|discriminate].
    intros [= <-]. apply str_or_nonempty. discriminate.
Qed.

(** The prefix [/app] with the default replacement, the empty string. *)
Lemma convertPath_rewrites_witness :
  (forall rest,
     convertPath (WPApp_init (Some "/app") (Some "") "index" []) ("/app" ++ "/" ++ rest) =
       Some ("" ++ "/" ++ rest)%string) /\
  convertPath (WPApp_init (Some "/app") (Some "") "index" []) "/app" = Some "/" /\
  (forall path path',
     convertPath (WPApp_init (Some "/app") (Some "") "index" []) path = Some path' ->
     path' <> "").
Proof.
  apply (convertPath_rewrites (WPApp_init (Some "/app") (Some "") "index" []) "/app").
  reflexivity.
Defined.

(** *** The entry point *)

Lemma dict_update_other (k : string) (e : list (string * string)) : forall d,
  dict_get k e = None -> dict_get k (dict_update d e) = dict_get k d.
Proof.
  unfold dict_update. induction e as [|[k' v] e IH]; intros d H; [reflexivity|].
  cbn [fold_left fst snd]. cbn [dict_get] in H.
  destruct (String.eqb k k') eqn:E; [discriminate|].
  rewrite (IH _ H), QueryTheory.dict_get_set, E. reflexivity.
Qed.

(** A request that is passed on carries, as its path, the path that
    [convertPath] made of the incoming one, and still has a query string:
    the resolver works on the converted path. *)
Theorem call_dispatches_converted_path (proc : process) (app : WPApp)
    (environ environ' : list (string * string)) :
  snd (WPApp_call proc app environ) = Dispatch environ' ->
  exists path',
    convertPath app (environ_get environ "PATH_INFO" "") = Some path' /\
    dict_get "PATH_INFO" environ' = Some path' /\
    is_Some (dict_get "QUERY_STRING" environ').
Proof.
  unfold WPApp_call.
  destruct (convertPath app _) as [path'|]; [|discriminate].
  match goal with
  | |- context [dict_get "QUERY_STRING" ?env] => set (env1 := env)
  end.
  destruct (dict_get "QUERY_STRING" env1) as [q|] eqn:Hq; [|discriminate].
  assert (Hpath : dict_get "PATH_INFO" env1 = Some path').
  { unfold env1. rewrite QueryTheory.dict_get_set, String.eqb_refl. reflexivity. }
  destruct (Initialized app); cbn [snd]; intros [= <-];
    exists path'; repeat split; auto; rewrite Hq; eexists; reflexivity.
Qed.

(** A request under the prefix [/app]. *)
Lemma call_dispatches_converted_path_witness :
  exists path',
    convertPath (WPApp_init (Some "/app") (Some "") "index" [])
      (environ_get [("PATH_INFO", "/app/x"); ("QUERY_STRING", "")] "PATH_INFO" "")
      = Some path' /\
    dict_get "PATH_INFO"
      [("PATH_INFO", "/x"); ("QUERY_STRING", ""); ("WebPie.original_path", "/app/x")]
      = Some path' /\
    is_Some (dict_get "QUERY_STRING"
      [("PATH_INFO", "/x"); ("QUERY_STRING", ""); ("WebPie.original_path", "/app/x")]).
Proof.
  apply (call_dispatches_converted_path (mkProcess None "app.py" (fun _ => ""))
           (WPApp_init (Some "/app") (Some "") "index" [])
           [("PATH_INFO", "/app/x"); ("QUERY_STRING", "")]).
  reflexivity.
Defined.

(** The request keeps, under [WebPie.original_path], the path it came in
    with, before the prefix is converted; a value already there (put by an
    outer application) is kept.  This holds when the application's own
    [Environ] does not set that key. *)
Theorem call_keeps_original_path (proc : process) (app : WPApp)
    (environ environ' : list (string * string)) :
  dict_get "WebPie.original_path" (Environ app) = None ->
  snd (WPApp_call proc app environ) = Dispatch environ' ->
  dict_get "WebPie.original_path" environ' =
    Some (default (environ_get environ "PATH_INFO" "")
                  (dict_get "WebPie.original_path" environ)).
Proof.
  intros Hfree. unfold WPApp_call.
  destruct (convertPath app _) as [path'|]; [|discriminate].
  match goal with
  | |- context [dict_get "QUERY_STRING" ?env] => set (env1 := env)
  end.
  assert (Horig : dict_get "WebPie.original_path" env1 =
                  Some (default (environ_get environ "PATH_INFO" "")
                                (dict_get "WebPie.original_path" environ))).
  { unfold env1. rewrite QueryTheory.dict_get_set.
    change (String.eqb "WebPie.original_path" "PATH_INFO") with false. cbv iota.
    rewrite (dict_update_other _ _ _ Hfree).
    destruct (dict_get "WebPie.original_path" environ) as [o|] eqn:Eo.
    - rewrite Eo. reflexivity.
    - rewrite QueryTheory.dict_get_set, String.eqb_refl. reflexivity. }
  destruct (dict_get "QUERY_STRING" env1); [|discriminate].
  destruct (Initialized app); cbn [snd]; intros [= <-]; exact Horig.
Qed.

(** A request under the prefix [/app] that has no original path yet. *)
Lemma call_keeps_original_path_witness :
  dict_get "WebPie.original_path"
    [("PATH_INFO", "/x"); ("QUERY_STRING", ""); ("WebPie.original_path", "/app/x")]
    = Some (default (environ_get [("PATH_INFO", "/app/x"); ("QUERY_STRING", "")]
                       "PATH_INFO" "")
                    (dict_get "WebPie.original_path"
                       [("PATH_INFO", "/app/x"); ("QUERY_STRING", "")])).
Proof.
  apply (call_keeps_original_path (mkProcess None "app.py" (fun _ => ""))
           (WPApp_init (Some "/app") (Some "") "index" [])
           [("PATH_INFO", "/app/x"); ("QUERY_STRING", "")]); reflexivity.
Defined.



(** *** The relpath of a request *)

Lemma split_no_sep_start c s :
  Forall (fun w => startswith (String c "") w = false) (split c s).
Proof.
  unfold startswith. induction s as [|a s IH]; cbn [split].
  - repeat constructor.
  - destruct (Ascii.eqb a c) eqn:E.
    + constructor; [reflexivity | exact IH].
    + assert (Ha : String.prefix (String c "") (String a "") = false /\
                   forall w, String.prefix (String c "") (String a w) = false).
      { cbn [String.prefix]. destruct (ascii_dec c a) as [->|].
        - rewrite Ascii.eqb_refl in E. discriminate.
        - split; [reflexivity | intros w; reflexivity]. }
      destruct (split c s) as [|w ws].
      * constructor; [apply Ha | constructor].
      * inversion IH; subst. constructor; [apply Ha | assumption].
Qed.

Lemma startswith_join_false (segs : list string) :
  Forall (fun w => w <> "" /\ startswith "/" w = false) segs ->
  startswith "/" (join "/" segs) = false.
Proof.
  intros H. destruct H as [|w ws [Hw Hs] _]; [reflexivity|].
  assert (Hgen : forall t, startswith "/" (w ++ t) = false).
  { intros t. unfold startswith in *. destruct w as [|a w]; [congruence|].
    cbn [append String.prefix] in *. destruct (ascii_dec "/" a); [|reflexivity].
    destruct w; discriminate. }
  destruct ws as [|w' ws]; [exact Hs|]. rewrite join_cons_cons. apply Hgen.
Qed.

Lemma path_segments_relative path :
  Forall (fun w => w <> "" /\ startswith "/" w = false) (path_segments path).
Proof.
  rewrite path_segments_filter.
  pose proof (split_no_sep_start slash path) as H.
  induction H as [|w ws Hw Hws IH]; cbn [List.filter]; [constructor|].
  unfold nonempty at 1. destruct (String.eqb w "") eqn:E; cbn [negb]; [exact IH|].
  constructor; [|exact IH]. split; [|exact Hw].
  intros ->. discriminate.
Qed.

(** The relpath handed to a web method is made of segments of the request
    path that the resolver has not walked through, joined by slashes; it
    never begins with a slash, whatever the request path. *)
Theorem wsgi_relpath_is_relative (app : WPApp) (st : store) (root_handler : pyobj)
    (environ : list (string * string)) (method : option pyobj) (relpath : string) :
  snd (wsgi_resolve app st root_handler environ) = Resolved method relpath ->
  (exists consumed rest,
     path_segments (environ_get environ "PATH_INFO" "") = consumed ++ rest /\
     relpath = join "/" rest) /\
  startswith "/" relpath = false.
Proof.
  unfold wsgi_resolve. intros H.
  destruct (find_web_method_relpath _ _ _ _ _ _ _ H) as (consumed & rest & Hsegs & ->).
  split; [exists consumed, rest; split; [exact Hsegs | reflexivity]|].
  apply startswith_join_false.
  pose proof (path_segments_relative (environ_get environ "PATH_INFO" "")) as Hrel.
  rewrite Hsegs in Hrel. apply List.Forall_app in Hrel. apply Hrel.
Qed.

(** The page [.env] of a plain root handler, asked for as [//.env//x/y/]. *)
Lemma wsgi_relpath_is_relative_witness :
  (exists consumed rest,
     path_segments (environ_get [("PATH_INFO", "//.env//x/y/")] "PATH_INFO" "")
       = consumed ++ rest /\
     "x/y" = join "/" rest) /\
  startswith "/" "x/y" = false.
Proof.
  apply (wsgi_relpath_is_relative (WPApp_init None (Some "") "index" [])
           [plain_handler] (OHandler 0) [("PATH_INFO", "//.env//x/y/")]
           (Some (OCallable "_env__" None)) "x/y").
  reflexivity.
Defined.

(** *** The segments of a path *)

(** The segments [wsgi_call] hands to the resolver are the pieces of the
    path between slashes that are not empty, in their order (the loop that
    removes the empty ones ends); none is empty and none begins or ends
    with a slash. *)
Theorem path_segments_are_nonempty_pieces (path : string) :
  path_segments path = List.filter nonempty (split slash path) /\
  Forall (fun w => w <> "" /\ startswith "/" w = false /\ endswith slash w = false)
         (path_segments path).
Proof.
  split; [apply path_segments_filter|].
  pose proof (path_segments_relative path) as H1.
  pose proof (path_segments_proper path) as H2.
  apply List.Forall_forall. intros w Hw.
  destruct (proj1 (List.Forall_forall _ _) H1 w Hw) as [Hne Hs].
  destruct (proj1 (List.Forall_forall _ _) H2 w Hw) as [_ He].
  repeat split; assumption.
Qed.

(** Two requests to a fresh application. *)
Lemma init_called_twice_or_never_witness :
  init_calls (snd (serve (mkProcess None "app.py" (fun _ => ""))
                     (WPApp_init None (Some "") "index" [])
                     [ [("PATH_INFO", "/"); ("QUERY_STRING", "")];
                       [("PATH_INFO", "/a"); ("QUERY_STRING", "x=1")] ])) = 0 \/
  init_calls (snd (serve (mkProcess None "app.py" (fun _ => ""))
                     (WPApp_init None (Some "") "index" [])
                     [ [("PATH_INFO", "/"); ("QUERY_STRING", "")];
                       [("PATH_INFO", "/a"); ("QUERY_STRING", "x=1")] ])) = 2.
Proof.
  apply (init_called_twice_or_never (mkProcess None "app.py" (fun _ => ""))
           [ [("PATH_INFO", "/"); ("QUERY_STRING", "")];
             [("PATH_INFO", "/a"); ("QUERY_STRING", "x=1")] ]
           (WPApp_init None (Some "") "index" [])).
  reflexivity.
Defined.

End CoordinatorFacts.

(* ===================================================================== *)
(** ** Properties of the template helpers                                 *)
(* ===================================================================== *)

Module TemplateFacts.
Import Templates ResolverTheory.

Lemma join_empty_cons (x : string) (l : list string) :
  join "" (x :: l) = (x ++ join "" l)%string.
Proof.
  destruct l as [|y l]; [symmetry; apply CoordinatorFacts.append_empty_r|].
  rewrite join_cons_cons. reflexivity.
Qed.

Lemma join_empty_app (l1 l2 : list string) :
  join "" (l1 ++ l2) = (join "" l1 ++ join "" l2)%string.
Proof.
  induction l1 as [|x l1 IH]; [reflexivity|].
  cbn [app]. rewrite !join_empty_cons, IH. symmetry. apply append_assoc.
Qed.

Lemma mergeLines_loop_text n lines : forall buf,
  join "" (mergeLines_loop n lines buf) = (join "" buf ++ join "" lines)%string.
Proof.
  induction lines as [|l rest IH]; intros buf; cbn [mergeLines_loop].
  - destruct buf as [|b buf].
    + reflexivity.
    + change (join "" []) with "". rewrite CoordinatorFacts.append_empty_r. reflexivity.
  - destruct (n <=? Z.of_nat (length buf))%Z.
    + rewrite join_empty_cons, IH, (join_empty_cons l rest). reflexivity.
    + rewrite IH, join_empty_app, (join_empty_cons l rest), append_assoc.
      change (join "" [l]) with l. reflexivity.
Qed.

(** Merging loses and adds no text: the chunks, put together, are the
    lines put together, for every [n] and for the lines of
    [render_to_response_iterator] whether merged or not. *)
Theorem mergeLines_keeps_text (lines : list string) (n : Z) :
  join "" (mergeLines lines n) = join "" lines /\
  join "" (merged_lines lines n) = join "" lines.
Proof.
  assert (H : join "" (mergeLines lines n) = join "" lines)
    by (unfold mergeLines; rewrite mergeLines_loop_text; reflexivity).
  split; [exact H|]. unfold merged_lines. destruct (1 <? n)%Z; [exact H | reflexivity].
Qed.

Lemma mergeLines_loop_groups (k : nat) (lines : list string) : forall buf,
  1 <= k -> length buf <= k ->
  exists groups : list (list string),
    mergeLines_loop (Z.of_nat k) lines buf = map (join "") groups /\
    concat groups = buf ++ lines /\
    Forall (fun g => 1 <= length g <= k) groups /\
    (forall i g, groups !! i = Some g -> S i < length groups -> length g = k).
Proof.
  intros buf Hk. revert buf.
  induction lines as [|l rest IH]; intros buf Hbuf; cbn [mergeLines_loop].
  - destruct buf as [|b buf].
    + exists []. split; [reflexivity|]. split; [reflexivity|].
      split; [constructor|]. intros i g H. discriminate.
    + exists [b :: buf]. split; [reflexivity|]. split; [reflexivity|]. split.
      * constructor; [|constructor]. cbn [length] in *. lia.
      * intros i g _ Hi. cbn [length] in Hi. lia.
  - destruct (Z.leb_spec (Z.of_nat k) (Z.of_nat (length buf))) as [Hfull|Hroom].
    + destruct (IH [l]) as (groups & E & Hc & Hall & Hlast); [cbn [length]; lia|].
      exists (buf :: groups). split; [cbn [map]; rewrite E; reflexivity|].
      split; [cbn [concat]; rewrite Hc; reflexivity|]. split.
      * constructor; [lia | exact Hall].
      * intros [|i] g Hg Hi.
        -- injection Hg as <-. lia.
        -- apply (Hlast i g Hg). cbn [length] in Hi. lia.
    + destruct (IH (buf ++ [l])) as (groups & E & Hc & Hall & Hlast).
      { rewrite length_app. cbn [length]. lia. }
      exists groups. split; [exact E|]. split; [|split; assumption].
      rewrite Hc, <- app_assoc. reflexivity.
Qed.

(** For [n] at least one, the chunks are the lines taken in groups, in
    order: every chunk joins between one and [n] lines, and every chunk
    but the last joins exactly [n]. *)
Theorem mergeLines_groups (lines : list string) (n : Z) :
  (1 <= n)%Z ->
  exists groups : list (list string),
    mergeLines lines n = map (join "") groups /\
    concat groups = lines /\
    Forall (fun g => 1 <= length g /\ (Z.of_nat (length g) <= n)%Z) groups /\
    (forall i g, groups !! i = Some g -> S i < length groups ->
                 Z.of_nat (length g) = n).
Proof.
  intros Hn. unfold mergeLines.
  destruct (mergeLines_loop_groups (Z.to_nat n) lines []) as (groups & E & Hc & Hall & Hlast);
    [lia | cbn [length]; lia |].
  rewrite Z2Nat.id in E by lia.
  exists groups. split; [exact E|]. split; [exact Hc|]. split.
  - eapply Forall_impl; [exact Hall|]. cbn beta. intros g Hg. lia.
  - intros i g Hg Hi. rewrite (Hlast i g Hg Hi). lia.
Qed.

(** Five lines merged by two. *)
Lemma mergeLines_groups_witness :
  exists groups : list (list string),
    mergeLines ["a"; "b"; "c"; "d"; "e"] 2 = map (join "") groups /\
    concat groups = ["a"; "b"; "c"; "d"; "e"] /\
    Forall (fun g => 1 <= length g /\ (Z.of_nat (length g) <= 2)%Z) groups /\
    (forall i g, groups !! i = Some g -> S i < length groups ->
                 Z.of_nat (length g) = 2%Z).
Proof.
  apply (mergeLines_groups ["a"; "b"; "c"; "d"; "e"] 2). lia.
Defined.

Lemma mergeLines_loop_single n lines : forall b,
  (n <= 0)%Z -> mergeLines_loop n lines [b] = b :: lines.
Proof.
  induction lines as [|l rest IH]; intros b Hn; cbn [mergeLines_loop].
  - reflexivity.
  - destruct (Z.leb_spec n (Z.of_nat (length [b]))) as [_|H]; [|cbn [length] in H; lia].
    rewrite IH by exact Hn. reflexivity.
Qed.

(** For [n] zero or negative nothing is merged: the generator yields an
    empty chunk first and then every line by itself. *)
Theorem mergeLines_not_positive (l : string) (rest : list string) (n : Z) :
  (n <= 0)%Z -> mergeLines (l :: rest) n = "" :: l :: rest.
Proof.
  intros Hn. unfold mergeLines. cbn [mergeLines_loop length].
  destruct (Z.leb_spec n (Z.of_nat 0)) as [_|H]; [|lia].
  rewrite mergeLines_loop_single by exact Hn. reflexivity.
Qed.

(** Two lines merged by zero. *)
Lemma mergeLines_not_positive_witness :
  mergeLines ["a"; "b"] 0 = [""; "a"; "b"].
Proof. apply (mergeLines_not_positive "a" ["b"] 0). lia. Defined.

End TemplateFacts.

(* ===================================================================== *)
(** ** Further properties of the teardown                                 *)
(* ===================================================================== *)

Module TeardownFacts.
Import Handlers TeardownShapes DestroyTheory.

Lemma evolves_refl st : evolves st st.
Proof. intros i. destruct (st !! i); auto. Qed.

Lemma evolves_trans st1 st2 st3 : evolves st1 st2 -> evolves st2 st3 -> evolves st1 st3.
Proof.
  intros H1 H2 i. specialize (H1 i). specialize (H2 i).
  destruct (st1 !! i), (st2 !! i), (st3 !! i); try tauto.
  destruct H1 as [E1 A1], H2 as [E2 A2]. split; [congruence | auto].
Qed.

Lemma evolves_clear st a h :
  st !! a = Some h -> evolves st (<[a := set_App None h]> st).
Proof.
  intros Ha i. destruct (decide (a = i)) as [<-|Hne].
  - rewrite list_lookup_insert_eq by (eapply lookup_lt_Some; eassumption).
    rewrite Ha. split; reflexivity.
  - rewrite list_lookup_insert_ne by assumption. destruct (st !! i); auto.
Qed.

Lemma evolves_mark st a b : evolves st (alter (set_BeingDestroyed b) a st).
Proof.
  intros i. destruct (decide (a = i)) as [<-|Hne].
  - rewrite list_lookup_alter_eq. destruct (st !! a); cbn; [|exact I].
    split; [reflexivity | auto].
  - rewrite list_lookup_alter_ne by assumption. destruct (st !! i); auto.
Qed.

Lemma app_cleared_evolves st st' b : evolves st st' -> app_cleared st b -> app_cleared st' b.
Proof.
  intros H (h & Hb & Hnone). specialize (H b). rewrite Hb in H.
  destruct (st' !! b) as [h'|] eqn:Hb'; [|contradiction].
  exists h'. split; [exact Hb' | tauto].
Qed.

Lemma teardowns_positive_app b tr1 tr2 :
  1 <= teardowns b (tr1 ++ tr2) -> 1 <= teardowns b tr1 \/ 1 <= teardowns b tr2.
Proof. rewrite teardowns_app. lia. Qed.

(** What a teardown that returns has done to the store. *)
Lemma destroy_loop_evolves fuel :
  (forall st a st' tr,
     _destroy fuel st a = Some (st', tr) ->
     evolves st st' /\ (forall b, 1 <= teardowns b tr -> app_cleared st' b)) ->
  forall entries st st' tr,
    destroy_loop (_destroy fuel) entries st = Some (st', tr) ->
    evolves st st' /\ (forall b, 1 <= teardowns b tr -> app_cleared st' b).
Proof.
  intros Hrec. induction entries as [|[k o] rest IH]; intros st st' tr H.
  - injection H as <- <-. split; [apply evolves_refl|].
    intros b Hb. cbn in Hb. lia.
  - cbn [destroy_loop] in H.
    destruct (isinstance_WPHandler st o); [|exact (IH _ _ _ H)].
    destruct o as [|c| |]; try exact (IH _ _ _ H).
    destruct (_destroy fuel st c) as [[st1 tr1]|] eqn:E1; [|discriminate].
    destruct (destroy_loop (_destroy fuel) rest st1) as [[st2 tr2]|] eqn:E2; [|discriminate].
    injection H as <- <-.
    destruct (Hrec _ _ _ _ E1) as [Hev1 Hcl1].
    destruct (IH _ _ _ E2) as [Hev2 Hcl2].
    split; [eapply evolves_trans; eassumption|].
    intros b Hb. rewrite teardowns_hook in Hb.
    destruct (teardowns_positive_app _ _ _ Hb) as [Hb1|Hb2].
    + eapply app_cleared_evolves; [exact Hev2 | exact (Hcl1 b Hb1)].
    + exact (Hcl2 b Hb2).
Qed.

Lemma destroy_evolves fuel : forall st a st' tr,
  _destroy fuel st a = Some (st', tr) ->
  evolves st st' /\ (forall b, 1 <= teardowns b tr -> app_cleared st' b).
Proof.
  induction fuel as [|fuel IH]; intros st a st' tr H; [discriminate|].
  cbn [_destroy] in H.
  destruct (st !! a) as [h|] eqn:Ha.
  2:{ injection H as <- <-. split; [apply evolves_refl|]. intros b Hb. cbn in Hb. lia. }
  destruct (BeingDestroyed h).
  { injection H as <- <-. split; [apply evolves_clear; exact Ha|].
    intros b Hb. cbn in Hb. lia. }
  destruct (destroy_loop _ _ _) as [[st3 tr3]|] eqn:E; [|discriminate].
  injection H as <- <-.
  destruct (destroy_loop_evolves fuel IH _ _ _ _ E) as [Hev Hcl].
  assert (Hev2 : evolves st (alter (set_BeingDestroyed true) a (<[a := set_App None h]> st)))
    by (eapply evolves_trans; [apply evolves_clear; exact Ha | apply evolves_mark]).
  assert (Hall : evolves st (alter (set_BeingDestroyed false) a st3)).
  { eapply evolves_trans; [exact Hev2|].
    eapply evolves_trans; [exact Hev | apply evolves_mark]. }
  split; [exact Hall|].
  intros b Hb. destruct (decide (a = b)) as [<-|Hne].
  - (* the handler itself: cleared at the start *)
    eapply app_cleared_evolves.
    + eapply evolves_trans; [apply evolves_mark|].
      eapply evolves_trans; [exact Hev | apply evolves_mark].
    + exists (set_App None h). split; [|reflexivity].
      apply list_lookup_insert_eq. eapply lookup_lt_Some; eassumption.
  - rewrite teardowns_other in Hb by assumption.
    eapply app_cleared_evolves; [apply evolves_mark | exact (Hcl b Hb)].
Qed.

Lemma core_and_mark h h' :
  core h = core h' -> BeingDestroyed h = BeingDestroyed h' ->
  set_App None h = set_App None h'.
Proof.
  unfold core, set_App, set_BeingDestroyed. cbn. intros E Hb.
  injection E. intros. rewrite Hb. congruence.
Qed.

(** A teardown with fuel enough returns, keeps the marks, and clears the
    application of the handler and of what is reachable from it. *)
Lemma destroy_teardown (st : store) (a : nat) (h : WPHandler) (fuel : nat) :
  length st < fuel ->
  st !! a = Some h ->
  exists st' tr,
    _destroy fuel st a = Some (st', tr) /\
    evolves st st' /\
    (forall i, flag st' i = flag st i) /\
    app_cleared st' a /\
    (forall b, reach st (is_marked st) a b -> app_cleared st' b).
Proof.
  intros Hfuel Ha.
  assert (Hcount : unmarked_count st < fuel).
  { unfold unmarked_count.
    pose proof (List.filter_length_le negb (BeingDestroyed <$> st)) as Hle.
    rewrite length_fmap in Hle. lia. }
  destruct (destroy_meets_spec fuel st a Hcount) as (st' & tr & E & _ & Hf & _ & Hc & _).
  destruct (destroy_evolves fuel st a st' tr E) as [Hev Hcl].
  exists st', tr. split; [exact E|]. split; [exact Hev|]. split; [exact Hf|]. split.
  - (* the handler itself *)
    destruct fuel as [|fuel']; [discriminate|].
    cbn [_destroy] in E. rewrite Ha in E.
    assert (Hfirst : app_cleared (<[a := set_App None h]> st) a).
    { exists (set_App None h). split; [|reflexivity].
      apply list_lookup_insert_eq. eapply lookup_lt_Some; eassumption. }
    destruct (BeingDestroyed h).
    + injection E as <- <-. exact Hfirst.
    + destruct (destroy_loop _ _ _) as [[st3 tr3]|] eqn:E3; [|discriminate].
      injection E as <- <-.
      destruct (destroy_loop_evolves fuel' (destroy_evolves fuel') _ _ _ _ E3) as [Hev3 _].
      eapply app_cleared_evolves; [apply evolves_mark|].
      eapply app_cleared_evolves; [exact Hev3|].
      eapply app_cleared_evolves; [apply evolves_mark | exact Hfirst].
  - intros b Hr. apply Hcl. apply Hc. exact Hr.
Qed.

(** A teardown changes nothing in any handler but [App]; it clears the
    [App] of the handler it is called on, and of every handler reachable
    from it along instance attributes (entries of [__dict__]). *)
Theorem destroy_clears_App_only (st : store) (a : nat) (h : WPHandler) (fuel : nat) :
  length st < fuel ->
  st !! a = Some h ->
  exists st' tr,
    _destroy fuel st a = Some (st', tr) /\
    (forall i, set_App None <$> st' !! i = set_App None <$> st !! i) /\
    app_cleared st' a /\
    (forall b, reach st (is_marked st) a b -> app_cleared st' b).
Proof.
  intros Hfuel Ha.
  destruct (destroy_teardown st a h fuel Hfuel Ha) as (st' & tr & E & Hev & Hf & Hroot & Hr).
  exists st', tr. split; [exact E|]. split; [|split; assumption].
  intros i. pose proof (Hev i) as Hi. pose proof (Hf i) as Hfi. unfold flag in Hfi.
  destruct (st !! i) as [x|], (st' !! i) as [x'|]; try contradiction; [|reflexivity].
  cbn in *. destruct Hi as [Hcore _]. f_equal. symmetry.
  apply core_and_mark; congruence.
Qed.

(** The teardown of the root of [shared_store]. *)
Lemma destroy_clears_App_only_witness :
  exists st' tr,
    _destroy 5 shared_store 0 = Some (st', tr) /\
    (forall i, set_App None <$> st' !! i = set_App None <$> shared_store !! i) /\
    app_cleared st' 0 /\
    (forall b, reach shared_store (is_marked shared_store) 0 b -> app_cleared st' b).
Proof.
  apply (destroy_clears_App_only shared_store 0
           (with_attrs [("left", OHandler 1); ("right", OHandler 2)] plain_handler) 5).
  - simpl. lia.
  - reflexivity.
Defined.

End TeardownFacts.

(* ===================================================================== *)
(** ** Properties of the template parameters                              *)
(* ===================================================================== *)

Module GlobalsFacts.
Import Handlers Coordinator Globals.

Lemma update_snoc {V} (d e : list (string * V)) (k : string) (v : V) :
  update d (e ++ [(k, v)]) = Query.dict_set k v (update d e).
Proof. unfold update. rewrite fold_left_app. reflexivity. Qed.

(** After [d.update(e)], a key has the value [e] gives it, and the value
    it had in [d] when [e] does not have it. *)
Lemma update_get {V} (k : string) (e : list (string * V)) : forall d,
  dict_get k (update d e) =
    match binding k e with
    | Some v => Some v
    | None => dict_get k d
    end.
Proof.
  unfold binding. induction e as [|[k' v] e IH] using rev_ind; intros d; [reflexivity|].
  rewrite update_snoc, QueryTheory.dict_get_set, rev_app_distr.
  cbn [rev List.app dict_get]. destruct (String.eqb k k'); [reflexivity | apply IH].
Qed.

(** The parameters a template gets are taken, for each key, from the
    first of these that has it: the arguments of the call, the handler's
    [jinja_globals()], the handler's own entries ([APP_URL], [MY_PATH] and
    the [GLOBAL_] ones), the application's [jinja_globals()], the
    application's [JGlobals].  Without an application ([App] cleared by a
    teardown) or without [JGlobals] (the template environment was never
    set up), [add_globals] raises [AttributeError]. *)
Theorem add_globals_precedence (h : WPHandler) (app : templates) (proc : process)
    (request_environ os_environ : list (string * string))
    (handler_jinja_globals d : params) :
  (forall a g,
     App h = Some a -> JGlobals app = Some g ->
     exists p,
       WPHandler_add_globals h app proc request_environ os_environ handler_jinja_globals d
         = Ok p /\
       forall k,
         dict_get k p =
           match binding k d with
           | Some v => Some v
           | None =>
           match binding k handler_jinja_globals with
           | Some v => Some v
           | None =>
           match dict_get k (handler_params h app proc request_environ os_environ) with
           | Some v => Some v
           | None =>
           match binding k (app_jinja_globals app) with
           | Some v => Some v
           | None => binding k g
           end end end end) /\
  (App h = None \/ JGlobals app = None ->
   WPHandler_add_globals h app proc request_environ os_environ handler_jinja_globals d
     = Raise AttributeError).
Proof.
  unfold WPHandler_add_globals, WPApp_add_globals. split.
  - intros a g -> ->. cbn [bind]. eexists. split; [reflexivity|].
    intros k. rewrite !update_get.
    destruct (binding k d); [reflexivity|].
    destruct (binding k handler_jinja_globals); [reflexivity|].
    assert (Hp : binding k (handler_params h app proc request_environ os_environ) =
                 dict_get k (handler_params h app proc request_environ os_environ)).
    { unfold binding, handler_params. cbn [rev List.app dict_get].
      repeat match goal with
             | |- context [String.eqb k ?s] =>
                 let E := fresh "E" in
                 destruct (String.eqb k s) eqn:E;
                 [apply String.eqb_eq in E; subst k; reflexivity|]
             end.
      reflexivity. }
    rewrite Hp.
    destruct (dict_get k (handler_params h app proc request_environ os_environ));
      [reflexivity|].
    destruct (binding k (app_jinja_globals app)); [reflexivity|].
    destruct (binding k g); reflexivity.
  - intros [-> | Hj]; [reflexivity|]. rewrite Hj. destruct (App h); reflexivity.
Qed.

(** A call that overrides [title] and a handler that overrides
    [APP_URL]. *)
Lemma add_globals_precedence_witness :
  exists p,
    WPHandler_add_globals plain_handler
      (mkTemplates "1.0" (Some [("title", TStr "site")]) [])
      (mkProcess None "app.py" (fun _ => "")) [] []
      [("APP_URL", TStr "/mirror")] [("title", TStr "page")] = Ok p /\
    forall k,
      dict_get k p =
        match binding k [("title", TStr "page")] with
        | Some v => Some v
        | None =>
        match binding k [("APP_URL", TStr "/mirror")] with
        | Some v => Some v
        | None =>
        match dict_get k (handler_params plain_handler
                            (mkTemplates "1.0" (Some [("title", TStr "site")]) [])
                            (mkProcess None "app.py" (fun _ => "")) [] []) with
        | Some v => Some v
        | None =>
        match binding k (app_jinja_globals
                           (mkTemplates "1.0" (Some [("title", TStr "site")]) [])) with
        | Some v => Some v
        | None => binding k [("title", TStr "site")]
        end end end end.
Proof.
  apply (proj1 (add_globals_precedence plain_handler
                  (mkTemplates "1.0" (Some [("title", TStr "site")]) [])
                  (mkProcess None "app.py" (fun _ => "")) [] []
                  [("APP_URL", TStr "/mirror")] [("title", TStr "page")])
               0 [("title", TStr "site")]); reflexivity.
Defined.

End GlobalsFacts.

(* ===================================================================== *)
(** ** Properties of the end of a request                                 *)
(* ===================================================================== *)

Module PipelineFacts.
Import ResponseModel Handlers TeardownShapes Pipeline DestroyTheory TeardownFacts.

Section WithLibrary.
Variable format_exception : exn -> list string.
Variable repr : pyval -> string.


(** When the returned value is coerced, the request ends with the coerced
    response; when it is refused with the invalid-response error, the
    request ends with the diagnostic page for that error, whose headline
    is the message of the error.  In both cases the root handler is torn
    down: its [destroy] hook is called first, then [_destroy], after
    which it and every handler reachable from it along instance
    attributes have lost their application. *)
Theorem coerced_response_tears_down (fuel : nat) (st : store) (root : nat)
    (h : WPHandler) (response : pyval) :
  length st < fuel ->
  st !! root = Some h ->
  (exists r, makeResponse response = Ok r) \/
  (exists v, makeResponse response = Raise (ValueError v)) ->
  exists r st' tr,
    call_finish format_exception repr fuel st (OHandler root) response
      = Some (r, st', Hook root :: tr) /\
    (forall r0, makeResponse response = Ok r0 -> r = r0) /\
    (forall v, makeResponse response = Raise (ValueError v) ->
       r = applicationErrorResponse format_exception (ValueError_str repr v)
             (ValueError v)) /\
    _destroy fuel st root = Some (st', tr) /\
    app_cleared st' root /\
    (forall b, reach st (is_marked st) root b -> app_cleared st' b).
Proof.
  intros Hfuel Hroot Hm.
  destruct (destroy_teardown st root h fuel Hfuel Hroot)
    as (st' & tr & E & _ & _ & Hroot' & Hreach).
  unfold call_finish, wsgi_finish. cbn [isinstance_WPHandler].
  rewrite bool_decide_eq_true_2 by eauto.
  destruct Hm as [[r Hr] | [v Hv]].
  - rewrite Hr, E. exists r, st', tr.
    split; [reflexivity|]. split; [intros r0 [= <-]; reflexivity|].
    split; [intros v [=]|]. split; [reflexivity|]. split; assumption.
  - rewrite Hv, E.
    exists (applicationErrorResponse format_exception (ValueError_str repr v)
              (ValueError v)), st', tr.
    split; [reflexivity|]. split; [intros r0 [=]|].
    split; [intros v0 [= <-]; reflexivity|]. split; [reflexivity|]. split; assumption.
Qed.

End WithLibrary.


(** A web method of the root of [cyclic_store] that returns a tuple of two
    texts and a third value, which is no response. *)
Lemma coerced_response_tears_down_witness :
  makeResponse (PTuple [PStr "a"; PStr "b"; PNone])
    = Raise (ValueError (PTuple [PStr "a"; PStr "b"; PNone])) /\
  exists r st' tr,
    call_finish one_line_trace opaque_repr 3 cyclic_store (OHandler 0)
        (PTuple [PStr "a"; PStr "b"; PNone])
      = Some (r, st', Hook 0 :: tr) /\
    (forall r0, makeResponse (PTuple [PStr "a"; PStr "b"; PNone]) = Ok r0 -> r = r0) /\
    (forall v, makeResponse (PTuple [PStr "a"; PStr "b"; PNone]) = Raise (ValueError v) ->
       r = applicationErrorResponse one_line_trace (ValueError_str opaque_repr v)
             (ValueError v)) /\
    _destroy 3 cyclic_store 0 = Some (st', tr) /\
    app_cleared st' 0 /\
    (forall b, reach cyclic_store (is_marked cyclic_store) 0 b -> app_cleared st' b).
Proof.
  split; [reflexivity|].
  apply (coerced_response_tears_down one_line_trace opaque_repr 3 cyclic_store 0
           (with_attrs [("child", OHandler 1)] plain_handler)
           (PTuple [PStr "a"; PStr "b"; PNone])).
  - simpl. lia.
  - reflexivity.
  - right. eexists. reflexivity.
Defined.

End PipelineFacts.
